(** * Volumes and their binds (package [volume] of tsuru)

    A shallow embedding of [volume/volume.go]: the [Volume] entity, its
    validation against the pool, team and configuration registries, and the
    bind protocol over the two storage collections.

    The collaborators of the package (pool and team registries, the
    configuration store, the storage driver) live outside the file and are
    taken as data of the world the operations run in. *)

From Stdlib Require Import Ascii.
From stdpp Require Import base option list strings gmap.

Local Open Scope string_scope.
Local Open Scope list_scope.
Set Warnings "-register-all".

(** ** Errors *)

(** Go's [error] values as the package meets them.  [errors.WithStack]
    wraps an error and keeps its text; on [nil] it returns [nil], which the
    combinator [stacked] below accounts for. *)
Inductive error : Type :=
| ErrorString (msg : string)   (* errors.New, errors.Errorf *)
| withStack (cause : error)    (* errors.WithStack of a non-nil error *)
| mgo_ErrNotFound              (* the driver's not-found value *)
| mgo_DupKey (msg : string)    (* a write error for which mgo.IsDup holds *)
| Foreign (msg : string).      (* any other error of a collaborator *)

Global Instance error_eq_dec : EqDecision error.
Proof. solve_decision. Defined.

Definition errors_New (msg : string) : error := ErrorString msg.

(** The message of an error, [err.Error()]: wrapping keeps the text. *)
Fixpoint Error (e : error) : string :=
  match e with
  | ErrorString msg => msg
  | withStack c => Error c
  | mgo_ErrNotFound => "not found"
  | mgo_DupKey msg => msg
  | Foreign msg => msg
  end.

Definition mgo_IsDup (e : error) : bool :=
  match e with
  | mgo_DupKey _ => true
  | _ => false
  end.

Definition ErrVolumeNotFound : error := errors_New "volume not found".
Definition ErrVolumeAlreadyBound : error := errors_New "volume already bound in mountpoint".
Definition ErrVolumeBindNotFound : error := errors_New "volume bind not found".

Inductive result (A : Type) : Type :=
| Ok (a : A)
| Err (e : error).
Arguments Ok {A} a.
Arguments Err {A} e.

(** ** Text *)

(** [t] occurs in [s], decided by trying every suffix of [s]. *)
Fixpoint isInfix (t s : string) : bool :=
  String.prefix t s ||
  match s with
  | EmptyString => false
  | String _ s' => isInfix t s'
  end.

Definition Contains (s t : string) : Prop :=
  ∃ a b, s = a +:+ t +:+ b.

Definition dquote : string := String "034"%char EmptyString.
Definition backslash : string := String "092"%char EmptyString.

Definition hexdigit (n : N) : ascii :=
  match String.get (N.to_nat n) "0123456789abcdef" with
  | Some c => c
  | None => "0"%char
  end.

Definition hex2 (n : N) : string :=
  String (hexdigit (n / 16)) (String (hexdigit (n mod 16)) EmptyString).

Definition hex4 (n : N) : string :=
  hex2 ((n / 256) mod 256) +:+ hex2 (n mod 256).

Definition hex8 (n : N) : string :=
  hex4 ((n / 65536) mod 65536) +:+ hex4 (n mod 65536).

(** [lo <= c && c <= hi] on a byte. *)
Definition byte_in (c : ascii) (lo hi : N) : bool :=
  bool_decide (lo ≤ N_of_ascii c)%N && bool_decide (N_of_ascii c ≤ hi)%N.

Definition RuneError : N := 65533.

(** The six low bits of a continuation byte. *)
Definition low6 (c : ascii) : N := N.land (N_of_ascii c) 63.

(** [utf8.DecodeRuneInString]: the rune at the head of a text and the number
    of bytes it takes; a byte that starts no well-formed encoding gives
    [RuneError] and the width one. *)
Definition DecodeRuneInString (s : string) : N * nat :=
  match s with
  | EmptyString => (RuneError, 0)
  | String s0 t =>
      let n0 := N_of_ascii s0 in
      if bool_decide (n0 < 128)%N then (n0, 1)
      else if byte_in s0 194 223 then
        match t with
        | String s1 _ =>
            if byte_in s1 128 191
            then (N.lor (N.shiftl (N.land n0 31) 6) (low6 s1), 2)
            else (RuneError, 1)
        | EmptyString => (RuneError, 1)
        end
      else if byte_in s0 224 239 then
        let lo := if bool_decide (n0 = 224%N) then 160%N else 128%N in
        let hi := if bool_decide (n0 = 237%N) then 159%N else 191%N in
        match t with
        | String s1 (String s2 _) =>
            if byte_in s1 lo hi && byte_in s2 128 191
            then (N.lor (N.shiftl (N.land n0 15) 12)
                    (N.lor (N.shiftl (low6 s1) 6) (low6 s2)), 3)
            else (RuneError, 1)
        | _ => (RuneError, 1)
        end
      else if byte_in s0 240 244 then
        let lo := if bool_decide (n0 = 240%N) then 144%N else 128%N in
        let hi := if bool_decide (n0 = 244%N) then 143%N else 191%N in
        match t with
        | String s1 (String s2 (String s3 _)) =>
            if byte_in s1 lo hi && byte_in s2 128 191 && byte_in s3 128 191
            then (N.lor (N.shiftl (N.land n0 7) 18)
                    (N.lor (N.shiftl (low6 s1) 12)
                       (N.lor (N.shiftl (low6 s2) 6) (low6 s3))), 4)
            else (RuneError, 1)
        | _ => (RuneError, 1)
        end
      else (RuneError, 1)
  end.

(** [strconv.IsPrint]: Latin-1 is decided on the spot; above U+00FF the
    library looks the rune up in its tables, which are taken as [table]. *)
Definition IsPrint (table : N → bool) (r : N) : bool :=
  if bool_decide (r ≤ 255)%N then
    if bool_decide (32 ≤ r)%N && bool_decide (r ≤ 126)%N then true
    else if bool_decide (161 ≤ r)%N && bool_decide (r ≤ 255)%N
    then negb (bool_decide (r = 173%N))
    else false
  else table r.

(** [appendEscapedRune] for the double quote as delimiter: what [%q] writes
    for the rune [r], whose bytes in the text are [bytes]. *)
Definition appendEscapedRune (table : N → bool) (r : N) (bytes : string) : string :=
  if bool_decide (r = 34%N) || bool_decide (r = 92%N) then backslash +:+ bytes
  else if IsPrint table r then bytes
  else if bool_decide (r = 7%N) then backslash +:+ "a"
  else if bool_decide (r = 8%N) then backslash +:+ "b"
  else if bool_decide (r = 12%N) then backslash +:+ "f"
  else if bool_decide (r = 10%N) then backslash +:+ "n"
  else if bool_decide (r = 13%N) then backslash +:+ "r"
  else if bool_decide (r = 9%N) then backslash +:+ "t"
  else if bool_decide (r = 11%N) then backslash +:+ "v"
  else if bool_decide (r < 32)%N || bool_decide (r = 127%N) then
    backslash +:+ "x" +:+ hex2 r
  else if bool_decide (r < 65536)%N then backslash +:+ "u" +:+ hex4 r
  else backslash +:+ "U" +:+ hex8 r.

(** The loop of [strconv.Quote] over the text: [skip] counts the bytes still
    to pass over, those of the rune written last.  A byte that starts no
    well-formed encoding is written as a [\x] escape. *)
Fixpoint quoteBody (table : N → bool) (skip : nat) (s : string) : string :=
  match s with
  | EmptyString => EmptyString
  | String s0 t =>
      match skip with
      | S k => quoteBody table k t
      | O =>
          let n0 := N_of_ascii s0 in
          let '(r, width) :=
            if bool_decide (n0 < 128)%N then (n0, 1) else DecodeRuneInString s in
          if bool_decide (width = 1) && bool_decide (r = RuneError) then
            backslash +:+ "x" +:+ hex2 n0 +:+ quoteBody table 0 t
          else
            appendEscapedRune table r (String.substring 0 width s)
            +:+ quoteBody table (width - 1) t
      end
  end.

(** The verb [%q] of [fmt] on a string. *)
Definition Quote (table : N → bool) (s : string) : string :=
  dquote +:+ quoteBody table 0 s +:+ dquote.

(** ** Configuration values *)

(** The generic tree [config.Get] answers with: the dynamic types an
    [interface{}] holds after the configuration file is read.  A mapping is
    given by its entries, in file order; the nil map has none. *)
Inductive Value : Type :=
| VNil
| VBool (b : bool)
| VInt (n : Z)
| VString (s : string)
| VList (l : list Value)
| VMapStr (m : list (string * Value))               (* map[string]interface{} *)
| VMapIface (m : list (string * Value)).            (* map[interface{}]interface{}, keys as printed *)

(** The verb [%T]: the name of the dynamic type of a value. *)
Definition typeName (x : Value) : string :=
  match x with
  | VNil => "<nil>"
  | VBool _ => "bool"
  | VInt _ => "int"
  | VString _ => "string"
  | VList _ => "[]interface {}"
  | VMapStr _ => "map[string]interface {}"
  | VMapIface _ => "map[interface {}]interface {}"
  end.

(** [x.(map[string]interface{})] in its two-result form: the map and [true],
    or the zero value of the map type, the nil map, and [false]. *)
Definition assert_map (x : Value) : list (string * Value) * bool :=
  match x with
  | VMapStr m => (m, true)
  | _ => ([], false)
  end.

(** ** Entities *)

Definition BindMode : Type := string.
Definition BindModeReadOnly : BindMode := "ro".
Definition BindModeReadWrite : BindMode := "rw".

Record VolumePlan : Type := {
  Plan_Name : string;
  Plan_Opts : list (string * Value)
}.

Record VolumeBindID : Type := {
  ID_App : string;
  ID_MountPoint : string;
  ID_Volume : string
}.

Record VolumeBind : Type := {
  ID : VolumeBindID;
  Mode : BindMode
}.

Record Volume : Type := {
  Name : string;
  Pool : string;
  Plan : VolumePlan;
  TeamOwner : string;
  Status : string;
  Opts : option (gmap string string)
}.

Global Instance VolumeBindID_eq_dec : EqDecision VolumeBindID.
Proof. solve_decision. Defined.

Global Instance VolumeBind_eq_dec : EqDecision VolumeBind.
Proof. solve_decision. Defined.

(** [v.Plan.Opts = opts] *)
Definition set_Plan_Opts (opts : list (string * Value)) (v : Volume) : Volume :=
  {| Name := Name v; Pool := Pool v;
     Plan := {| Plan_Name := Plan_Name (Plan v); Plan_Opts := opts |};
     TeamOwner := TeamOwner v; Status := Status v; Opts := Opts v |}.

(** Modelled from the spec: the encoder of documents is not in this package.
    The field tag [omitempty] on [Opts]: the mapping is omitted entirely from
    the persisted form when empty (section 3), so a map of length zero, nil
    or not, reads back as the nil map. *)
Definition omitempty (o : option (gmap string string)) : option (gmap string string) :=
  match o with
  | Some m => if bool_decide (size m = 0) then None else Some m
  | None => None
  end.

(** Modelled from the spec: the volume record keyed by name, with its pool,
    plan, team owner, status and optional opts (section 6); it is the document
    the storage keeps for a volume, as [Load] decodes it. *)
Definition document (v : Volume) : Volume :=
  {| Name := Name v; Pool := Pool v; Plan := Plan v;
     TeamOwner := TeamOwner v; Status := Status v; Opts := omitempty (Opts v) |}.

Definition volumePlanKey (planName provisioner : string) : string :=
  "volume-plans:" +:+ planName +:+ ":" +:+ provisioner.

(** ** The world the operations run in *)

Record Provisioner : Type := { GetName : string }.

(** A pool of the registry; [GetProvisioner] may fail. *)
Record provision_Pool : Type := {
  Pool_Name : string;
  GetProvisioner : result Provisioner
}.

(** The registries, read and never written by this package, and with them
    the one table of the Go library that the texts of errors depend on. *)
Record Env : Type := {
  provision_GetPoolByName : string → result provision_Pool;
  auth_GetTeam : string → result string;
  config_Get : string → result Value;
  ConvertEntries : Value → Value;
  strconv_isPrint : N → bool   (* the print tables of the Go library above U+00FF *)
}.

(** The storage: whether [db.Conn] answers, whether the backend fails the
    operations sent to it, and the two collections in storage order. *)
Record DB : Type := {
  dial : option error;
  fault : option error;
  Volumes : list Volume;
  VolumeBinds : list VolumeBind
}.

(** What the package asks of its collaborators, in the order it asks. *)
Inductive Event : Type :=
| EvGetPoolByName (name : string)
| EvGetTeam (name : string)
| EvGetProvisioner (pool : string)
| EvConfigGet (key : string)
| EvConn
| EvClose
| EvUpsertId (id : string)
| EvInsert (id : VolumeBindID)
| EvRemoveId (id : VolumeBindID)
| EvFind
| EvDistinct
| EvFindId (id : string).

Record World : Type := {
  env : Env;
  db : DB;
  trace : list Event
}.

Definition emit (ev : Event) (w : World) : World :=
  {| env := env w; db := db w; trace := trace w ++ [ev] |}.

(** A method with a pointer receiver runs on the receiver and the world. *)
Record Frame : Type := {
  self : Volume;
  world : World
}.

(** ** Computations that may fail and that change a state *)

Definition M (S A : Type) : Type := S → result A * S.

Definition fail {S A} (e : error) : M S A := λ s, (Err e, s).

Definition bind {S A B} (m : M S A) (k : A → M S B) : M S B :=
  λ s, match m s with
       | (Ok a, s') => k a s'
       | (Err e, s') => (Err e, s')
       end.

Declare Scope go_scope.
Delimit Scope go_scope with go.
Notation "x <- m ;; k" := (bind m (λ x, k))
  (at level 100, m at next level, right associativity) : go_scope.
Notation "m ;; k" := (bind m (λ _, k))
  (at level 100, right associativity) : go_scope.
Local Open Scope go_scope.

Definition gets {S A} (f : S → A) : M S A := λ s, (Ok (f s), s).

Definition modify {S} (f : S → S) : M S unit := λ s, (Ok tt, f s).

(** [if err != nil { return h(err) }] *)
Definition on_error {S A} (h : error → error) (m : M S A) : M S A :=
  λ s, match m s with
       | (Ok a, s') => (Ok a, s')
       | (Err e, s') => (Err (h e), s')
       end.

(** [if err != nil { return errors.WithStack(err) }] *)
Definition stacked {S A} (m : M S A) : M S A := on_error withStack m.

(** [defer f()]: [f] runs when the body returns, whatever it returns. *)
Definition defer {S A} (f : S → S) (body : M S A) : M S A :=
  λ s, match body s with
       | (r, s') => (r, f s')
       end.

(** A computation on the world, run inside a method. *)
Definition inWorld {A} (m : M World A) : M Frame A :=
  λ f, match m (world f) with
       | (r, w') => (r, {| self := self f; world := w' |})
       end.

(** ** Collections of documents with a unique [_id]

    The storage driver is not in this package.  A collection is the list of
    its documents in storage order, and the operations on it follow what the
    specification asks of the storage (sections 1 and 6). *)

Section Collection.
Context {D K : Type} `{EqDecision K} (id : D → K).

Definition has_id (k : K) (c : list D) : bool :=
  bool_decide (k ∈ id <$> c).

(** Modelled from the spec: the driver's [Insert], an insert with
    uniqueness rejection: a document whose [_id] is taken is refused with a
    duplicate-key error, told apart from other errors; a new one is added. *)
Definition insert_doc (d : D) (c : list D) : result (list D) :=
  if has_id (id d) c then Err (mgo_DupKey "E11000 duplicate key error")
  else Ok (c ++ [d]).

Fixpoint remove_first (k : K) (c : list D) : list D :=
  match c with
  | [] => []
  | d :: c' => if decide (id d = k) then c' else d :: remove_first k c'
  end.

(** Modelled from the spec: the driver's [RemoveId], delete by id, where
    not-found is told apart from other errors. *)
Definition remove_id (k : K) (c : list D) : result (list D) :=
  if has_id k c then Ok (remove_first k c) else Err mgo_ErrNotFound.

Fixpoint replace_first (k : K) (d : D) (c : list D) : list D :=
  match c with
  | [] => []
  | d' :: c' => if decide (id d' = k) then d :: c' else d' :: replace_first k d c'
  end.

(** Modelled from the spec: the driver's [UpsertId] with a whole document:
    if a document with this id exists it is fully replaced, otherwise the
    document is created (section 4.2). *)
Definition upsert_id (k : K) (d : D) (c : list D) : list D :=
  if has_id k c then replace_first k d c else c ++ [d].

(** Modelled from the spec: the driver's [FindId(k).One], find by id, where
    not-found is told apart from other errors. *)
Definition find_id (k : K) (c : list D) : result D :=
  match list_find (λ d, id d = k) c with
  | Some (_, d) => Ok d
  | None => Err mgo_ErrNotFound
  end.

Definition unique_ids (c : list D) : Prop := NoDup (id <$> c).
End Collection.

(** An operation sent to the backend: it is recorded, and a failing backend
    answers with its failure and changes nothing. *)
Definition backend {A} (ev : Event) (op : DB → result A * DB) : M World A :=
  λ w, let w1 := emit ev w in
       match fault (db w1) with
       | Some e => (Err e, w1)
       | None =>
           match op (db w1) with
           | (r, d) => (r, {| env := env w1; db := d; trace := trace w1 |})
           end
       end.

Definition with_Volumes (c : list Volume) (d : DB) : DB :=
  {| dial := dial d; fault := fault d; Volumes := c; VolumeBinds := VolumeBinds d |}.

Definition with_VolumeBinds (c : list VolumeBind) (d : DB) : DB :=
  {| dial := dial d; fault := fault d; Volumes := Volumes d; VolumeBinds := c |}.

(** [db.Conn()]: the connection, or the error the world holds for it. *)
Definition db_Conn : M World unit :=
  λ w, let w1 := emit EvConn w in
       match dial (db w1) with
       | Some e => (Err e, w1)
       | None => (Ok tt, w1)
       end.

Definition conn_Close : World → World := emit EvClose.

(** [conn.Volumes().UpsertId(id, v)] *)
Definition Volumes_UpsertId (id : string) (v : Volume) : M World unit :=
  backend (EvUpsertId id)
    (λ d, (Ok tt, with_Volumes (upsert_id Name id (document v) (Volumes d)) d)).

(** [conn.VolumeBinds().Insert(bind)] *)
Definition VolumeBinds_Insert (b : VolumeBind) : M World unit :=
  backend (EvInsert (ID b))
    (λ d, match insert_doc ID b (VolumeBinds d) with
          | Ok c => (Ok tt, with_VolumeBinds c d)
          | Err e => (Err e, d)
          end).

(** [conn.VolumeBinds().RemoveId(id)] *)
Definition VolumeBinds_RemoveId (id : VolumeBindID) : M World unit :=
  backend (EvRemoveId id)
    (λ d, match remove_id ID id (VolumeBinds d) with
          | Ok c => (Ok tt, with_VolumeBinds c d)
          | Err e => (Err e, d)
          end).

(** Modelled from the spec: [find(filter)], in storage order.
    [conn.VolumeBinds().Find(bson.M{"_id.volume": name}).All(&binds)] *)
Definition VolumeBinds_Find_volume (name : string) : M World (list VolumeBind) :=
  backend EvFind
    (λ d, (Ok (filter (λ b, ID_Volume (ID b) = name) (VolumeBinds d)), d)).

(** Modelled from the spec: [find(filter).distinct(field)], the values of
    the field among the documents found, each once.
    [conn.VolumeBinds().Find(bson.M{"_id.app": app}).Distinct("_id.volume", &names)] *)
Definition VolumeBinds_Distinct_volume (app : string) : M World (list string) :=
  backend EvDistinct
    (λ d, (Ok (remove_dups
                 ((λ b, ID_Volume (ID b)) <$>
                    filter (λ b, ID_App (ID b) = app) (VolumeBinds d))), d)).

(** Modelled from the spec: [find(filter)] with the filter that the id is
    one of [names]: all volume documents whose id is in that set (section 4.6).
    [conn.Volumes().Find(bson.M{"_id": bson.M{"$in": names}}).All(&volumes)] *)
Definition Volumes_Find_in (names : list string) : M World (list Volume) :=
  backend EvFind
    (λ d, (Ok (filter (λ v, Name v ∈ names) (Volumes d)), d)).

(** [conn.Volumes().FindId(name).One(&v)] *)
Definition Volumes_FindId (name : string) : M World Volume :=
  backend (EvFindId name) (λ d, (find_id Name name (Volumes d), d)).

(** ** The registries as computations *)

Definition GetPoolByName (name : string) : M World provision_Pool :=
  λ w, (provision_GetPoolByName (env w) name, emit (EvGetPoolByName name) w).

Definition GetTeam (name : string) : M World string :=
  λ w, (auth_GetTeam (env w) name, emit (EvGetTeam name) w).

Definition pool_GetProvisioner (pool : provision_Pool) : M World Provisioner :=
  λ w, (GetProvisioner pool, emit (EvGetProvisioner (Pool_Name pool)) w).

Definition configGet (key : string) : M World Value :=
  λ w, (config_Get (env w) key, emit (EvConfigGet key) w).

(** ** The package *)

(** [errors.Errorf("invalid type for plan opts %T", planOpts)]: the verb is
    given the variable [planOpts], of static type [map[string]interface{}]. *)
Definition invalid_plan_opts (planOpts : list (string * Value)) : error :=
  errors_New ("invalid type for plan opts " +:+ typeName (VMapStr planOpts)).

Definition Validate : M Frame unit :=
  v <- gets self ;;
  if bool_decide (Name v = EmptyString) then
    fail (errors_New "volume name cannot be empty")
  else
    pool <- stacked (inWorld (GetPoolByName (Pool v))) ;;
    _ <- stacked (inWorld (GetTeam (TeamOwner v))) ;;
    prov <- stacked (inWorld (pool_GetProvisioner pool)) ;;
    data <- stacked (inWorld (configGet (volumePlanKey (Plan_Name (Plan v)) (GetName prov)))) ;;
    convert <- gets (λ f, ConvertEntries (env (world f))) ;;
    match assert_map (convert data) with
    | (planOpts, false) => fail (invalid_plan_opts planOpts)
    | (planOpts, true) =>
        modify (λ f, {| self := set_Plan_Opts planOpts (self f); world := world f |})
    end.

Definition Save : M Frame unit :=
  Validate ;;
  v <- gets self ;;
  inWorld (stacked db_Conn ;;
           defer conn_Close (stacked (Volumes_UpsertId (Name v) v))).

Definition invalid_bind_mode (table : N → bool) (mode : BindMode) : error :=
  errors_New ("invalid bind mode, expected " +:+ Quote table BindModeReadOnly +:+ " or "
              +:+ Quote table BindModeReadWrite +:+ ", got " +:+ Quote table mode).

Definition BindApp (appName mountPoint : string) (mode : BindMode) : M Frame unit :=
  let mode := if bool_decide (mode = EmptyString) then BindModeReadWrite else mode in
  if bool_decide (mode ≠ BindModeReadOnly) && bool_decide (mode ≠ BindModeReadWrite) then
    table <- gets (λ f, strconv_isPrint (env (world f))) ;;
    fail (invalid_bind_mode table mode)
  else
    v <- gets self ;;
    inWorld (stacked db_Conn ;;
             defer conn_Close
               (let bind := {| ID := {| ID_App := appName;
                                        ID_MountPoint := mountPoint;
                                        ID_Volume := Name v |};
                               Mode := mode |} in
                on_error (λ err, if mgo_IsDup err then ErrVolumeAlreadyBound
                                 else withStack err)
                  (VolumeBinds_Insert bind))).

Definition UnbindApp (appName mountPoint : string) : M Frame unit :=
  v <- gets self ;;
  inWorld (stacked db_Conn ;;
           defer conn_Close
             (on_error (λ err, if bool_decide (err = mgo_ErrNotFound)
                               then ErrVolumeBindNotFound
                               else withStack err)
                (VolumeBinds_RemoveId {| ID_App := appName;
                                         ID_Volume := Name v;
                                         ID_MountPoint := mountPoint |}))).

Definition Binds : M Frame (list VolumeBind) :=
  v <- gets self ;;
  inWorld (stacked db_Conn ;;
           defer conn_Close (VolumeBinds_Find_volume (Name v))).

Definition ListByApp (appName : string) : M World (list Volume) :=
  stacked db_Conn ;;
  defer conn_Close
    (volumeNames <- VolumeBinds_Distinct_volume appName ;;
     stacked (Volumes_Find_in volumeNames)).

Definition Load (name : string) : M World Volume :=
  stacked db_Conn ;;
  defer conn_Close
    (on_error (λ err, if bool_decide (err = mgo_ErrNotFound)
                      then ErrVolumeNotFound
                      else withStack err)
       (Volumes_FindId name)).

(** A method call [v.m(...)] in the world [w]: what it returns, the receiver
    and the world afterwards. *)
Definition call {A} (m : M Frame A) (v : Volume) (w : World) : result A * Volume * World :=
  match m {| self := v; world := w |} with
  | (r, f) => (r, self f, world f)
  end.

(** ** States of the storage *)

(** Both collections index their documents by [_id]. *)
Definition wf_db (d : DB) : Prop :=
  unique_ids Name (Volumes d) ∧ unique_ids ID (VolumeBinds d).

(** The connection is given and the backend serves what it is sent. *)
Definition healthy (d : DB) : Prop :=
  dial d = None ∧ fault d = None.

Definition bound (id : VolumeBindID) (d : DB) : Prop :=
  id ∈ ID <$> VolumeBinds d.

Definition valid_mode (mode : BindMode) : Prop :=
  mode = EmptyString ∨ mode = BindModeReadOnly ∨ mode = BindModeReadWrite.

(** ** A world to run the operations in *)

(** The conversion used in the sample world: mappings keyed by
    [interface{}] become string-keyed ones, through lists and mappings. *)
Fixpoint convertEntries (x : Value) : Value :=
  match x with
  | VList l => VList (map convertEntries l)
  | VMapIface m => VMapStr (map (λ kv, (fst kv, convertEntries (snd kv))) m)
  | _ => x
  end.

Definition sample_env : Env := {|
  provision_GetPoolByName name :=
    if bool_decide (name = "p1")
    then Ok {| Pool_Name := "p1"; GetProvisioner := Ok {| GetName := "docker" |} |}
    else Err (Foreign "Pool does not exist.");
  auth_GetTeam name :=
    if bool_decide (name = "team1") then Ok "team1" else Err (Foreign "team not found");
  config_Get key :=
    if bool_decide (key = "volume-plans:plan1:docker")
    then Ok (VMapIface [("size", VString "10Gi")])
    else if bool_decide (key = "volume-plans:plan2:docker")
    then Ok (VList [VString "10Gi"])
    else Err (Foreign "key not found");
  ConvertEntries := convertEntries;
  strconv_isPrint := λ _, true   (* no text of the samples goes above U+00FF *)
|}.

Definition empty_db : DB :=
  {| dial := None; fault := None; Volumes := []; VolumeBinds := [] |}.

Definition sample_world : World :=
  {| env := sample_env; db := empty_db; trace := [] |}.

Definition v1 : Volume :=
  {| Name := "v1"; Pool := "p1";
     Plan := {| Plan_Name := "plan1"; Plan_Opts := [] |};
     TeamOwner := "team1"; Status := EmptyString; Opts := Some ∅ |}.

(** ** Histories *)

(** The calls of the package that write to the storage. *)
Inductive Op : Type :=
| OpSave (v : Volume)
| OpBindApp (v : Volume) (appName mountPoint : string) (mode : BindMode)
| OpUnbindApp (v : Volume) (appName mountPoint : string).

Definition step (w : World) (o : Op) : World :=
  match o with
  | OpSave v => (call Save v w).2
  | OpBindApp v appName mountPoint mode => (call (BindApp appName mountPoint mode) v w).2
  | OpUnbindApp v appName mountPoint => (call (UnbindApp appName mountPoint) v w).2
  end.

(** The world after a sequence of calls, whatever each of them returned. *)
Definition run (ops : list Op) (w : World) : World := fold_left step ops w.

(** ** Names used in the statements and sample data *)

(** A byte that [%q] copies as it is. *)
Definition plain_byte (c : ascii) : bool :=
  let n := N_of_ascii c in
  bool_decide (32 ≤ n)%N && bool_decide (n < 127)%N
  && negb (bool_decide (n = 34%N)) && negb (bool_decide (n = 92%N)).

Fixpoint plain (s : string) : bool :=
  match s with
  | EmptyString => true
  | String c s' => plain_byte c && plain s'
  end.

Definition unnamed : Volume :=
  {| Name := EmptyString; Pool := "p1";
     Plan := {| Plan_Name := "plan1"; Plan_Opts := [] |};
     TeamOwner := "team1"; Status := EmptyString; Opts := None |}.

Definition v_no_pool : Volume :=
  {| Name := "v9"; Pool := "nowhere";
     Plan := {| Plan_Name := "plan1"; Plan_Opts := [("size", VString "1Gi")] |};
     TeamOwner := "team1"; Status := EmptyString; Opts := None |}.

Definition v_list_plan : Volume :=
  {| Name := "v2"; Pool := "p1";
     Plan := {| Plan_Name := "plan2"; Plan_Opts := [] |};
     TeamOwner := "team1"; Status := EmptyString; Opts := None |}.

(** The key of the bind record of a volume for an app at a mount point. *)
Definition bind_id (v : Volume) (app mp : string) : VolumeBindID :=
  {| ID_App := app; ID_MountPoint := mp; ID_Volume := Name v |}.

(** The mode a bind is stored with: an empty mode gives way to
    [BindModeReadWrite]. *)
Definition stored_mode (mode : BindMode) : BindMode :=
  if bool_decide (mode = EmptyString) then BindModeReadWrite else mode.

Definition the_bind : VolumeBind :=
  {| ID := {| ID_App := "app1"; ID_MountPoint := "/data"; ID_Volume := "v1" |};
     Mode := "rw" |}.

(** The sample world once [v1] is bound to [app1] at [/data]. *)
Definition bound_world : World :=
  {| env := sample_env; db := with_VolumeBinds [the_bind] empty_db;
     trace := [EvConn; EvInsert (ID the_bind); EvClose] |}.

(** The sample world with [v1] stored under an older pool name. *)
Definition stored_world : World :=
  {| env := sample_env;
     db := with_Volumes
             [{| Name := "v0"; Pool := "p1";
                 Plan := {| Plan_Name := "plan1"; Plan_Opts := [] |};
                 TeamOwner := "team1"; Status := "ok"; Opts := None |};
              {| Name := "v1"; Pool := "p0";
                 Plan := {| Plan_Name := "plan0"; Plan_Opts := [] |};
                 TeamOwner := "team0"; Status := "old";
                 Opts := Some {[ "k" := "x" ]} |}] empty_db;
     trace := [] |}.

(** [v1] stored and bound to [app1] at two mount points; [app1] also holds a
    bind to [gone], a name under which no volume is stored. *)
Definition busy_world : World :=
  {| env := sample_env;
     db := {| dial := None; fault := None;
              Volumes := [document v1];
              VolumeBinds :=
                [the_bind;
                 {| ID := {| ID_App := "app1"; ID_MountPoint := "/logs"; ID_Volume := "v1" |};
                    Mode := "ro" |};
                 {| ID := {| ID_App := "app1"; ID_MountPoint := "/old"; ID_Volume := "gone" |};
                    Mode := "rw" |}] |};
     trace := [] |}.

(** ** Calls and what they leave in the trace *)

Global Instance Event_eq_dec : EqDecision Event.
Proof. solve_decision. Defined.

(** Every call a user of the package can make. *)
Inductive Call : Type :=
| CValidate (v : Volume)
| CSave (v : Volume)
| CBindApp (v : Volume) (appName mountPoint : string) (mode : BindMode)
| CUnbindApp (v : Volume) (appName mountPoint : string)
| CBinds (v : Volume)
| CListByApp (appName : string)
| CLoad (name : string).

(** The world after a call, whatever the call returned. *)
Definition exec (w : World) (c : Call) : World :=
  match c with
  | CValidate v => (call Validate v w).2
  | CSave v => (call Save v w).2
  | CBindApp v appName mountPoint mode => (call (BindApp appName mountPoint mode) v w).2
  | CUnbindApp v appName mountPoint => (call (UnbindApp appName mountPoint) v w).2
  | CBinds v => (call Binds v w).2
  | CListByApp appName => (ListByApp appName w).2
  | CLoad name => (Load name w).2
  end.

Definition exec_all (cs : list Call) (w : World) : World := fold_left exec cs w.

(** How often an event stands in a trace. *)
Definition occurrences (ev : Event) (t : list Event) : nat :=
  length (filter (λ e, e = ev) t).

(** The events that ask a registry; the others reach for the storage. *)
Definition is_lookup (ev : Event) : bool :=
  match ev with
  | EvGetPoolByName _ | EvGetTeam _ | EvGetProvisioner _ | EvConfigGet _ => true
  | _ => false
  end.

(** No byte of the text is a colon. *)
Fixpoint no_colon (s : string) : bool :=
  match s with
  | EmptyString => true
  | String c s' => negb (bool_decide (c = ":"%char)) && no_colon s'
  end.

(** A volume whose pool and team are both unknown. *)
Definition v_stranger : Volume :=
  {| Name := "v9"; Pool := "nowhere";
     Plan := {| Plan_Name := "plan1"; Plan_Opts := [] |};
     TeamOwner := "nobody"; Status := EmptyString; Opts := None |}.

(** A world whose storage cannot be reached. *)
Definition offline_world : World :=
  {| env := sample_env;
     db := {| dial := Some (Foreign "no reachable servers"); fault := None;
              Volumes := [document v1]; VolumeBinds := [the_bind] |};
     trace := [] |}.

(** A world whose storage is reached and fails what it is sent. *)
Definition failing_world : World :=
  {| env := sample_env;
     db := {| dial := None; fault := Some (Foreign "cursor timed out");
              Volumes := [document v1]; VolumeBinds := [the_bind] |};
     trace := [] |}.

(** The calls that only read. *)
Definition read_only (c : Call) : bool :=
  match c with
  | CValidate _ | CBinds _ | CListByApp _ | CLoad _ => true
  | _ => false
  end.

(** [v1] bound to [app2] at [/data], read-only. *)
Definition other_bind : VolumeBind :=
  {| ID := {| ID_App := "app2"; ID_MountPoint := "/data"; ID_Volume := "v1" |};
     Mode := "ro" |}.

(** A mode that is one line feed. *)
Definition newline_mode : BindMode := String "010"%char EmptyString.

(** ** Unfolding a run *)

Ltac unfold_go :=
  unfold call, stacked, on_error, defer, inWorld, bind, gets, modify, fail,
    backend, db_Conn, conn_Close,
    GetPoolByName, GetTeam, pool_GetProvisioner, configGet in *.

Ltac step_result :=
  match goal with
  | |- context [match ?r with Ok _ => _ | Err _ => _ end] =>
      let E := fresh "E" in destruct r eqn:E; simpl in *
  | H : context [match ?r with Ok _ => _ | Err _ => _ end] |- _ =>
      let E := fresh "E" in destruct r eqn:E; simpl in *
  end.

(** ** Occurrences in a text *)

Lemma append_String c (s t : string) : String c s +:+ t = String c (s +:+ t).
Proof. reflexivity. Qed.

Lemma append_Empty_r (t : string) : t +:+ EmptyString = t.
Proof. induction t as [|x t IH]; [done|]. by rewrite append_String, IH. Qed.

Lemma prefix_spec (t s : string) :
  String.prefix t s = true ↔ ∃ b, s = t +:+ b.
Proof.
  revert s. induction t as [|c t IH]; intros s.
  - split; [intros _; by exists s | by destruct s].
  - destruct s as [|c' s]; simpl.
    + split; [done | intros [b Hb]; discriminate].
    + destruct (Ascii.ascii_dec c c') as [->|Hne].
      * rewrite IH. split; intros [b Hb]; exists b;
          rewrite append_String in *; congruence.
      * split; [done | intros [b Hb]; rewrite append_String in Hb; congruence].
Qed.

Lemma isInfix_spec (t s : string) :
  isInfix t s = true ↔ Contains s t.
Proof.
  unfold Contains. induction s as [|c s IH]; cbn [isInfix].
  - rewrite orb_false_r, prefix_spec. split.
    + intros [b Hb]. by exists EmptyString, b.
    + intros [[|? a] [b Hb]]; [by exists b | discriminate].
  - rewrite orb_true_iff, IH, prefix_spec. split.
    + intros [[b Hb]|(a & b & Hab)].
      * by exists EmptyString, b.
      * exists (String c a), b. by rewrite append_String, Hab.
    + intros [[|c' a] [b Hab]].
      * left. by exists b.
      * right. exists a, b. rewrite append_String in Hab. congruence.
Qed.

Lemma quoteBody_plain (table : N → bool) (s : string) :
  plain s = true → quoteBody table 0 s = s.
Proof.
  induction s as [|c s IH]; [done|].
  intros [Hc Hs]%andb_true_iff. cbn [quoteBody]. specialize (IH Hs).
  unfold plain_byte in Hc.
  apply andb_true_iff in Hc as [[[H1 H2]%andb_true_iff H3]%andb_true_iff H4].
  apply bool_decide_eq_true in H1, H2.
  apply negb_true_iff, bool_decide_eq_false in H3, H4.
  rewrite (bool_decide_eq_true_2 (N_of_ascii c < 128)%N) by lia.
  cbn beta iota.
  rewrite (bool_decide_eq_false_2 (N_of_ascii c = RuneError)) by (unfold RuneError; lia).
  rewrite andb_false_r.
  unfold appendEscapedRune, IsPrint.
  rewrite (bool_decide_eq_false_2 (N_of_ascii c = 34%N)) by done.
  rewrite (bool_decide_eq_false_2 (N_of_ascii c = 92%N)) by done.
  rewrite (bool_decide_eq_true_2 (N_of_ascii c ≤ 255)%N) by lia.
  rewrite (bool_decide_eq_true_2 (32 ≤ N_of_ascii c)%N) by lia.
  rewrite (bool_decide_eq_true_2 (N_of_ascii c ≤ 126)%N) by lia.
  cbn [orb andb Nat.sub]. rewrite IH. by destruct s.
Qed.

(** ** Facts on collections *)

Section CollectionFacts.
Context {D K : Type} `{EqDecision K} (id : D → K).

Lemma has_id_true (k : K) (c : list D) : has_id id k c = true ↔ k ∈ id <$> c.
Proof. unfold has_id. apply bool_decide_eq_true. Qed.

Lemma has_id_false (k : K) (c : list D) : has_id id k c = false ↔ k ∉ id <$> c.
Proof. unfold has_id. apply bool_decide_eq_false. Qed.

Lemma unique_ids_snoc (d : D) (c : list D) :
  unique_ids id c → id d ∉ id <$> c → unique_ids id (c ++ [d]).
Proof.
  unfold unique_ids. intros Hc Hd. rewrite fmap_app. apply NoDup_app.
  split; [done|]. split; [|apply NoDup_singleton].
  intros k Hk [->|[]%elem_of_nil]%elem_of_cons. done.
Qed.

Lemma insert_doc_unique (d : D) (c c' : list D) :
  unique_ids id c → insert_doc id d c = Ok c' → unique_ids id c'.
Proof.
  unfold insert_doc. destruct (has_id id (id d) c) eqn:E; [done|].
  intros Hc [= <-]. apply unique_ids_snoc; [done|]. by apply has_id_false.
Qed.

Lemma remove_first_absent (k : K) (c : list D) :
  k ∉ id <$> c → remove_first id k c = c.
Proof.
  induction c as [|d c IH]; simpl; [done|].
  rewrite not_elem_of_cons. intros [Hd Hc].
  destruct (decide (id d = k)); [done|]. by rewrite IH.
Qed.

(** With unique ids, removing by id removes every document of that id. *)
Lemma remove_first_filter (k : K) (c : list D) :
  unique_ids id c → remove_first id k c = filter (λ d, id d ≠ k) c.
Proof.
  unfold unique_ids. induction c as [|d c IH]; simpl; [done|].
  rewrite NoDup_cons. intros [Hd Hc].
  destruct (decide (id d = k)) as [<-|Hne].
  - rewrite filter_cons_False by (intros Hn; by apply Hn).
    rewrite <- (remove_first_absent (id d) c) at 1 by done.
    rewrite <- IH by done. by rewrite remove_first_absent.
  - rewrite filter_cons_True by done. by rewrite IH.
Qed.

Lemma unique_ids_filter (P : D → Prop) `{∀ d, Decision (P d)} (c : list D) :
  unique_ids id c → unique_ids id (filter P c).
Proof.
  unfold unique_ids. induction c as [|d c IH]; simpl; [done|].
  rewrite NoDup_cons. intros [Hd Hc]. rewrite filter_cons.
  destruct (decide (P d)); [|by apply IH].
  rewrite fmap_cons. apply NoDup_cons. split; [|by apply IH].
  intros (x & Hx & [_ Hin]%list_elem_of_filter)%list_elem_of_fmap.
  apply Hd, list_elem_of_fmap. by exists x.
Qed.

Lemma remove_id_unique (k : K) (c c' : list D) :
  unique_ids id c → remove_id id k c = Ok c' → unique_ids id c'.
Proof.
  unfold remove_id. destruct (has_id id k c); [|done].
  intros Hc [= <-]. rewrite remove_first_filter by done.
  by apply unique_ids_filter.
Qed.

Lemma replace_first_ids (d : D) (c : list D) :
  id <$> replace_first id (id d) d c = id <$> c.
Proof.
  induction c as [|d' c IH]; simpl; [done|].
  destruct (decide (id d' = id d)) as [E|E]; csimpl; [by rewrite E|by rewrite IH].
Qed.

Lemma upsert_id_unique (d : D) (c : list D) :
  unique_ids id c → unique_ids id (upsert_id id (id d) d c).
Proof.
  unfold upsert_id. destruct (has_id id (id d) c) eqn:E; intros Hc.
  - unfold unique_ids. by rewrite replace_first_ids.
  - apply unique_ids_snoc; [done|]. by apply has_id_false.
Qed.

(** The document that was under the id is the one replaced, where it was. *)
Lemma replace_first_split (k : K) (d : D) (c : list D) :
  k ∈ id <$> c →
  ∃ c1 old c2, c = c1 ++ (old :: c2) ∧ id old = k ∧ (k ∉ id <$> c1) ∧
               replace_first id k d c = c1 ++ (d :: c2).
Proof.
  induction c as [|d' c IH]; simpl.
  - by intros ?%elem_of_nil.
  - intros Hin. destruct (decide (id d' = k)) as [E|E].
    + exists [], d', c. repeat split; try done. apply not_elem_of_nil.
    + apply elem_of_cons in Hin as [Hin|Hin]; [congruence|].
      destruct (IH Hin) as (c1 & old & c2 & -> & Hold & Hc1 & Hrep).
      exists (d' :: c1), old, c2. simpl. rewrite Hrep.
      repeat split; try done. rewrite not_elem_of_cons. split; [congruence|done].
Qed.

Lemma find_id_absent (k : K) (c : list D) :
  k ∉ id <$> c → find_id id k c = Err mgo_ErrNotFound.
Proof.
  intros Hk. unfold find_id.
  destruct (list_find _ c) as [[i d]|] eqn:E; [|done].
  apply list_find_Some in E as (Hi & Hd & _). destruct Hk.
  apply list_elem_of_fmap. exists d. split; [done|]. by eapply list_elem_of_lookup_2.
Qed.

Lemma find_id_split (k : K) (d : D) (c1 c2 : list D) :
  k ∉ id <$> c1 → id d = k → find_id id k (c1 ++ (d :: c2)) = Ok d.
Proof.
  intros Hk Hd. unfold find_id.
  induction c1 as [|d' c1 IH]; simpl.
  - by rewrite decide_True.
  - apply not_elem_of_cons in Hk as [Hd' Hk].
    rewrite decide_False by congruence.
    specialize (IH Hk). destruct (list_find _ (c1 ++ d :: c2)) as [[i x]|]; simpl; done.
Qed.

(** After an upsert under its own id, a document is the one found. *)
Lemma find_id_upsert (d : D) (c : list D) :
  find_id id (id d) (upsert_id id (id d) d c) = Ok d.
Proof.
  unfold upsert_id. destruct (has_id id (id d) c) eqn:E.
  - apply has_id_true in E.
    destruct (replace_first_split (id d) d c E) as (c1 & old & c2 & _ & _ & Hc1 & ->).
    by apply find_id_split.
  - apply has_id_false in E. by apply find_id_split.
Qed.
End CollectionFacts.

(** ** Validation *)

(** What [Validate] does once the name is known not to be empty, one lookup
    after the other. *)
Lemma Validate_run (v : Volume) (w : World) :
  Name v ≠ EmptyString →
  call Validate v w =
    let w1 := emit (EvGetPoolByName (Pool v)) w in
    match provision_GetPoolByName (env w) (Pool v) with
    | Err e => (Err (withStack e), v, w1)
    | Ok pool =>
        let w2 := emit (EvGetTeam (TeamOwner v)) w1 in
        match auth_GetTeam (env w) (TeamOwner v) with
        | Err e => (Err (withStack e), v, w2)
        | Ok _ =>
            let w3 := emit (EvGetProvisioner (Pool_Name pool)) w2 in
            match GetProvisioner pool with
            | Err e => (Err (withStack e), v, w3)
            | Ok prov =>
                let key := volumePlanKey (Plan_Name (Plan v)) (GetName prov) in
                let w4 := emit (EvConfigGet key) w3 in
                match config_Get (env w) key with
                | Err e => (Err (withStack e), v, w4)
                | Ok data =>
                    match ConvertEntries (env w) data with
                    | VMapStr opts => (Ok tt, set_Plan_Opts opts v, w4)
                    | _ => (Err (invalid_plan_opts []), v, w4)
                    end
                end
            end
        end
    end.
Proof.
  intros Hname. unfold Validate. unfold_go. simpl.
  rewrite bool_decide_eq_false_2 by done. simpl.
  repeat (step_result; try reflexivity).
  destruct (ConvertEntries (env w) a2); reflexivity.
Qed.

Lemma Validate_empty_name (v : Volume) (w : World) :
  Name v = EmptyString →
  call Validate v w = (Err (errors_New "volume name cannot be empty"), v, w).
Proof.
  intros Hname. unfold Validate. unfold_go. simpl.
  rewrite bool_decide_eq_true_2 by done. by destruct w.
Qed.

(** [Validate] asks the registries and never the storage. *)
Lemma Validate_db (v : Volume) (w : World) :
  db (call Validate v w).2 = db w ∧ env (call Validate v w).2 = env w.
Proof.
  destruct (decide (Name v = EmptyString)) as [Hname|Hname].
  - by rewrite Validate_empty_name.
  - rewrite Validate_run by done. simpl.
    repeat (step_result; try done).
    by destruct (ConvertEntries (env w) a2).
Qed.

Lemma Validate_error_keeps_receiver (v : Volume) (w : World) e v' w' :
  call Validate v w = (Err e, v', w') → v' = v.
Proof.
  destruct (decide (Name v = EmptyString)) as [Hname|Hname].
  - rewrite Validate_empty_name by done. congruence.
  - rewrite Validate_run by done. simpl.
    repeat (step_result; try congruence).
    destruct (ConvertEntries (env w) a2); congruence.
Qed.

(** ** Runs of the bind protocol *)

Lemma valid_mode_check (mode : BindMode) :
  valid_mode mode →
  bool_decide (stored_mode mode ≠ BindModeReadOnly)
  && bool_decide (stored_mode mode ≠ BindModeReadWrite) = false.
Proof. by intros [-> | [-> | ->]]. Qed.

Lemma invalid_mode_check (mode : BindMode) :
  ¬ valid_mode mode →
  stored_mode mode = mode ∧
  bool_decide (mode ≠ BindModeReadOnly) && bool_decide (mode ≠ BindModeReadWrite) = true.
Proof.
  unfold valid_mode, stored_mode. intros Hm.
  rewrite bool_decide_eq_false_2 by tauto. split; [done|].
  rewrite andb_true_iff, !bool_decide_eq_true. tauto.
Qed.

Lemma BindApp_invalid (v : Volume) (w : World) app mp mode :
  ¬ valid_mode mode →
  call (BindApp app mp mode) v w
  = (Err (invalid_bind_mode (strconv_isPrint (env w)) mode), v, w).
Proof.
  intros [Hs Hc]%invalid_mode_check. unfold BindApp.
  fold (stored_mode mode). rewrite Hs, Hc. unfold_go. by destruct w.
Qed.

Lemma BindApp_healthy (v : Volume) (w : World) app mp mode :
  valid_mode mode → healthy (db w) →
  ∃ w', env w' = env w ∧
    if has_id ID (bind_id v app mp) (VolumeBinds (db w))
    then call (BindApp app mp mode) v w = (Err ErrVolumeAlreadyBound, v, w') ∧
         db w' = db w
    else call (BindApp app mp mode) v w = (Ok tt, v, w') ∧
         db w' = with_VolumeBinds
                   (VolumeBinds (db w)
                      ++ [{| ID := bind_id v app mp; Mode := stored_mode mode |}])
                   (db w).
Proof.
  intros Hmode [Hdial Hfault]. unfold BindApp.
  fold (stored_mode mode). rewrite valid_mode_check by done.
  unfold VolumeBinds_Insert, insert_doc. unfold_go. simpl.
  rewrite Hdial. simpl. rewrite Hfault. simpl.
  fold (bind_id v app mp).
  destruct (has_id ID (bind_id v app mp) (VolumeBinds (db w))); simpl;
    (eexists; split; [|split; [reflexivity|]]; reflexivity).
Qed.

Lemma BindApp_wf (v : Volume) (w : World) app mp mode :
  wf_db (db w) → wf_db (db (call (BindApp app mp mode) v w).2).
Proof.
  intros [HV HB]. destruct (decide (valid_mode mode)) as [Hmode|Hmode].
  - unfold BindApp. fold (stored_mode mode). rewrite valid_mode_check by done.
    unfold VolumeBinds_Insert. unfold_go. simpl.
    destruct (dial (db w)); simpl; [done|].
    destruct (fault (db w)); simpl; [done|].
    destruct (insert_doc ID _ (VolumeBinds (db w))) as [c|e] eqn:E; simpl; [|done].
    split; [done|]. simpl. by eapply insert_doc_unique.
  - by rewrite BindApp_invalid.
Qed.

Lemma UnbindApp_healthy (v : Volume) (w : World) app mp :
  healthy (db w) →
  ∃ w', env w' = env w ∧
    if has_id ID (bind_id v app mp) (VolumeBinds (db w))
    then call (UnbindApp app mp) v w = (Ok tt, v, w') ∧
         db w' = with_VolumeBinds
                   (remove_first ID (bind_id v app mp) (VolumeBinds (db w))) (db w)
    else call (UnbindApp app mp) v w = (Err ErrVolumeBindNotFound, v, w') ∧
         db w' = db w.
Proof.
  intros [Hdial Hfault]. unfold UnbindApp, VolumeBinds_RemoveId, remove_id.
  unfold_go. simpl. rewrite Hdial. simpl. rewrite Hfault. simpl.
  fold (bind_id v app mp).
  destruct (has_id ID (bind_id v app mp) (VolumeBinds (db w))); simpl;
    (eexists; split; [|split; [reflexivity|]]; reflexivity).
Qed.

Lemma UnbindApp_wf (v : Volume) (w : World) app mp :
  wf_db (db w) → wf_db (db (call (UnbindApp app mp) v w).2).
Proof.
  intros [HV HB]. unfold UnbindApp, VolumeBinds_RemoveId. unfold_go. simpl.
  destruct (dial (db w)); simpl; [done|].
  destruct (fault (db w)); simpl; [done|].
  destruct (remove_id ID _ (VolumeBinds (db w))) as [c|e] eqn:E; simpl; [|done].
  split; [done|]. simpl. by eapply remove_id_unique.
Qed.

Section CountingFacts.
Context {D K : Type} `{EqDecision K} (id : D → K).

Lemma filter_id_absent (k : K) (c : list D) :
  k ∉ id <$> c → filter (λ d, id d = k) c = [].
Proof.
  induction c as [|d c IH]; [done|]. rewrite fmap_cons, not_elem_of_cons.
  intros [Hd Hc]. rewrite filter_cons_False by congruence. by apply IH.
Qed.

Lemma filter_other_absent (k : K) (c : list D) :
  k ∉ id <$> c → filter (λ d, id d ≠ k) c = c.
Proof.
  induction c as [|d c IH]; [done|]. rewrite fmap_cons, not_elem_of_cons.
  intros [Hd Hc]. rewrite filter_cons_True by congruence. by rewrite IH.
Qed.

(** Unique ids: no id has two documents. *)
Lemma unique_ids_at_most_one (k : K) (c : list D) :
  unique_ids id c → (length (filter (λ d, id d = k) c) ≤ 1)%nat.
Proof.
  unfold unique_ids. induction c as [|d c IH]; simpl; [lia|].
  rewrite NoDup_cons. intros [Hd Hc]. rewrite filter_cons.
  destruct (decide (id d = k)) as [<-|Hne]; [|by apply IH].
  rewrite filter_id_absent by done. simpl. lia.
Qed.

Lemma unique_ids_one (k : K) (c : list D) :
  unique_ids id c → k ∈ id <$> c → length (filter (λ d, id d = k) c) = 1.
Proof.
  unfold unique_ids. induction c as [|d c IH]; simpl.
  - by intros _ ?%elem_of_nil.
  - rewrite NoDup_cons. intros [Hd Hc] Hin. rewrite filter_cons.
    destruct (decide (id d = k)) as [<-|Hne].
    + by rewrite filter_id_absent.
    + apply elem_of_cons in Hin as [Hin|Hin]; [congruence|]. by apply IH.
Qed.
End CountingFacts.

(** ** Runs of [Save], [Load] and [ListByApp] *)

Lemma Save_run (v : Volume) (w : World) :
  call Save v w =
    match call Validate v w with
    | (Err e, v', w1) => (Err e, v', w1)
    | (Ok _, v', w1) =>
        match dial (db w1) with
        | Some e => (Err (withStack e), v', emit EvConn w1)
        | None =>
            let w2 := emit (EvUpsertId (Name v')) (emit EvConn w1) in
            match fault (db w1) with
            | Some e => (Err (withStack e), v', emit EvClose w2)
            | None =>
                (Ok tt, v',
                 emit EvClose
                   {| env := env w1;
                      db := with_Volumes
                              (upsert_id Name (Name v') (document v') (Volumes (db w1)))
                              (db w1);
                      trace := trace w2 |})
            end
        end
    end.
Proof.
  unfold Save, call, bind at 1.
  destruct (Validate {| self := v; world := w |}) as [[[]|e] [v' w1]]; simpl; [|done].
  unfold Volumes_UpsertId. unfold_go. simpl.
  destruct (dial (db w1)); simpl; [done|].
  destruct (fault (db w1)); simpl; done.
Qed.

Lemma Save_wf (v : Volume) (w : World) :
  wf_db (db w) → wf_db (db (call Save v w).2).
Proof.
  intros [HV HB]. rewrite Save_run.
  pose proof (Validate_db v w) as [Hdb _].
  destruct (call Validate v w) as [[[[]|e] v'] w1]; simpl in *; rewrite ?Hdb; [|done].
  destruct (dial (db w)); simpl; [by rewrite Hdb|].
  destruct (fault (db w)); simpl; [by rewrite Hdb|].
  split; simpl; [|done]. by apply (upsert_id_unique Name (document v')).
Qed.

Lemma Load_healthy (name : string) (w : World) :
  healthy (db w) →
  ∃ w', env w' = env w ∧ db w' = db w ∧
    Load name w =
      (match find_id Name name (Volumes (db w)) with
       | Ok v => Ok v
       | Err _ => Err ErrVolumeNotFound
       end, w').
Proof.
  intros [Hdial Hfault]. unfold Load, Volumes_FindId, find_id. unfold_go. simpl.
  rewrite Hdial. simpl. rewrite Hfault. simpl.
  destruct (list_find _ (Volumes (db w))) as [[i x]|]; simpl;
    (eexists; split; [|split; [|reflexivity]]; reflexivity).
Qed.

Lemma ListByApp_healthy (app : string) (w : World) :
  healthy (db w) →
  ∃ w', env w' = env w ∧ db w' = db w ∧
    ListByApp app w =
      (Ok (filter (λ v, Name v ∈
                     remove_dups ((λ b, ID_Volume (ID b)) <$>
                                    filter (λ b, ID_App (ID b) = app) (VolumeBinds (db w))))
             (Volumes (db w))), w').
Proof.
  intros [Hdial Hfault].
  unfold ListByApp, VolumeBinds_Distinct_volume, Volumes_Find_in. unfold_go. simpl.
  rewrite Hdial. simpl. rewrite Hfault. simpl. rewrite Hfault. simpl.
  eexists; split; [|split; [|reflexivity]]; reflexivity.
Qed.

Lemma Validate_ok_receiver (v : Volume) (w : World) v' w' :
  call Validate v w = (Ok tt, v', w') →
  Name v ≠ EmptyString ∧ db w' = db w ∧ ∃ opts, v' = set_Plan_Opts opts v.
Proof.
  intros H. pose proof (Validate_db v w) as [Hdb _]. rewrite H in Hdb.
  destruct (decide (Name v = EmptyString)) as [Hname|Hname].
  - rewrite Validate_empty_name in H by done. discriminate.
  - split; [done|]. split; [done|].
    rewrite Validate_run in H by done. simpl in H.
    repeat (step_result; try discriminate).
    destruct (ConvertEntries (env w) a2) as [| | | | |opts|]; try discriminate.
    exists opts. congruence.
Qed.

(** Every call keeps the collections indexed, so every history does. *)
Lemma run_wf (ops : list Op) (w : World) :
  wf_db (db w) → wf_db (db (run ops w)).
Proof.
  unfold run. revert w. induction ops as [|o ops IH]; intros w Hwf; simpl; [done|].
  apply IH. destruct o; simpl.
  - by apply Save_wf.
  - by apply BindApp_wf.
  - by apply UnbindApp_wf.
Qed.

(** ** Properties of validation *)

(** C4: a volume whose name is empty is refused by [Validate] and by [Save]
    with the empty-name error; the world is returned as it was given, so no
    registry has been asked, no connection opened and nothing stored. *)
Theorem empty_name_refused_first (v : Volume) (w : World) :
  Name v = EmptyString →
  call Validate v w = (Err (errors_New "volume name cannot be empty"), v, w) ∧
  call Save v w = (Err (errors_New "volume name cannot be empty"), v, w).
Proof.
  intros Hname. split; [by apply Validate_empty_name|].
  pose proof (Validate_empty_name v w Hname) as HV.
  unfold Save, call, bind in *.
  destruct (Validate {| self := v; world := w |}) as [[u|e] f]; simpl in *; congruence.
Qed.

Lemma empty_name_refused_first_witness :
  Name unnamed = EmptyString ∧
  call Validate unnamed sample_world
    = (Err (errors_New "volume name cannot be empty"), unnamed, sample_world) ∧
  call Save unnamed sample_world
    = (Err (errors_New "volume name cannot be empty"), unnamed, sample_world).
Proof.
  split; [reflexivity|].
  apply (empty_name_refused_first unnamed sample_world). reflexivity.
Defined.

(** C10: whenever [Validate] returns an error, whichever check failed, the
    receiver is as it was before the call; its plan options in particular
    keep the value the caller gave them. *)
Theorem Validate_failure_keeps_receiver (v : Volume) (w : World) e v' w' :
  call Validate v w = (Err e, v', w') →
  v' = v ∧ Plan_Opts (Plan v') = Plan_Opts (Plan v).
Proof.
  intros H. apply Validate_error_keeps_receiver in H. by subst.
Qed.

Lemma Validate_failure_keeps_receiver_witness :
  call Validate v_no_pool sample_world
    = (Err (withStack (Foreign "Pool does not exist.")), v_no_pool,
       emit (EvGetPoolByName "nowhere") sample_world) ∧
  v_no_pool = v_no_pool ∧
  Plan_Opts (Plan v_no_pool) = [("size", VString "1Gi")].
Proof.
  split; [reflexivity|].
  apply (Validate_failure_keeps_receiver v_no_pool sample_world
           (withStack (Foreign "Pool does not exist.")) v_no_pool
           (emit (EvGetPoolByName "nowhere") sample_world)).
  reflexivity.
Defined.

(** C6: when [Validate] succeeds, the pool, its provisioner and the
    configuration entry of the plan for that provisioner were all found, the
    entry is a string-keyed mapping, the receiver's plan options are now that
    mapping, and every other field is as before.  The plan options the caller
    had set play no part: with any others in their place the call returns
    the same. *)
Theorem Validate_success_sets_plan_opts (v : Volume) (w : World) v' w' :
  call Validate v w = (Ok tt, v', w') →
  ∃ pool prov data opts,
    provision_GetPoolByName (env w) (Pool v) = Ok pool ∧
    GetProvisioner pool = Ok prov ∧
    config_Get (env w) (volumePlanKey (Plan_Name (Plan v)) (GetName prov)) = Ok data ∧
    ConvertEntries (env w) data = VMapStr opts ∧
    Plan_Opts (Plan v') = opts ∧
    Name v' = Name v ∧ Pool v' = Pool v ∧
    Plan_Name (Plan v') = Plan_Name (Plan v) ∧
    TeamOwner v' = TeamOwner v ∧ Status v' = Status v ∧ Opts v' = Opts v ∧
    ∀ given, call Validate (set_Plan_Opts given v) w = (Ok tt, v', w').
Proof.
  destruct (decide (Name v = EmptyString)) as [Hname|Hname].
  - rewrite Validate_empty_name by done. discriminate.
  - rewrite Validate_run by done. simpl.
    destruct (provision_GetPoolByName (env w) (Pool v)) as [pool|] eqn:Epool; [|discriminate].
    destruct (auth_GetTeam (env w) (TeamOwner v)) eqn:Eteam; [|discriminate].
    destruct (GetProvisioner pool) as [prov|] eqn:Eprov; [|discriminate].
    destruct (config_Get (env w) _) as [data|] eqn:Edata; [|discriminate].
    destruct (ConvertEntries (env w) data) as [| | | | |opts|] eqn:Econv; try discriminate.
    intros [= <- <-]. exists pool, prov, data, opts. repeat split; try done.
    intros given. rewrite Validate_run by done. simpl.
    by rewrite Epool, Eteam, Eprov, Edata, Econv.
Qed.

Lemma Validate_success_sets_plan_opts_witness :
  call Validate v1 sample_world
    = (Ok tt, set_Plan_Opts [("size", VString "10Gi")] v1,
       (call Validate v1 sample_world).2) ∧
  ∃ opts,
    convertEntries (VMapIface [("size", VString "10Gi")]) = VMapStr opts ∧
    Plan_Opts (Plan (set_Plan_Opts [("size", VString "10Gi")] v1)) = opts ∧
    call Validate (set_Plan_Opts [("iops", VInt 7)] v1) sample_world
      = (Ok tt, set_Plan_Opts [("size", VString "10Gi")] v1,
         (call Validate v1 sample_world).2).
Proof.
  split; [reflexivity|].
  destruct (Validate_success_sets_plan_opts v1 sample_world
              (set_Plan_Opts [("size", VString "10Gi")] v1)
              (call Validate v1 sample_world).2 eq_refl)
    as (pool & prov & data & opts & _ & _ & _ & _ & Hopts & _ & _ & _ & _ & _ & _ & Hany).
  exists opts. split; [by rewrite <- Hopts|]. split; [exact Hopts|]. apply Hany.
Defined.

(** When the converted entry is not a string-keyed mapping, the error text
    is built from [planOpts], which the failed assertion left at the nil map
    of the asserted type: the text names that type and no other. *)
Lemma Validate_type_mismatch (v : Volume) (w : World) pool team prov data :
  Name v ≠ EmptyString →
  provision_GetPoolByName (env w) (Pool v) = Ok pool →
  auth_GetTeam (env w) (TeamOwner v) = Ok team →
  GetProvisioner pool = Ok prov →
  config_Get (env w) (volumePlanKey (Plan_Name (Plan v)) (GetName prov)) = Ok data →
  (∀ m, ConvertEntries (env w) data ≠ VMapStr m) →
  (call Validate v w).1 =
    (Err (ErrorString "invalid type for plan opts map[string]interface {}"), v).
Proof.
  intros Hname Hpool Hteam Hprov Hdata Hconv.
  rewrite Validate_run by done. simpl. rewrite Hpool, Hteam, Hprov, Hdata.
  destruct (ConvertEntries (env w) data) eqn:E; try reflexivity.
  by destruct (Hconv m).
Qed.

(** C2: the entry of [plan2] for [docker] is a list.  [Validate] fails, and
    the text of its error names [map[string]interface {}], the type asked
    for; the type of the value received, [[]interface {}], is not in it. *)
Theorem Validate_names_asserted_type :
  config_Get sample_env (volumePlanKey "plan2" "docker") = Ok (VList [VString "10Gi"]) ∧
  typeName (ConvertEntries sample_env (VList [VString "10Gi"])) = "[]interface {}" ∧
  (call Validate v_list_plan sample_world).1 =
    (Err (ErrorString "invalid type for plan opts map[string]interface {}"), v_list_plan) ∧
  ¬ Contains "invalid type for plan opts map[string]interface {}"
      (typeName (ConvertEntries sample_env (VList [VString "10Gi"]))).
Proof.
  split; [reflexivity|]. split; [reflexivity|]. split.
  - by apply (Validate_type_mismatch v_list_plan sample_world
                {| Pool_Name := "p1"; GetProvisioner := Ok {| GetName := "docker" |} |}
                "team1" {| GetName := "docker" |} (VList [VString "10Gi"])).
  - rewrite <- isInfix_spec. by vm_compute.
Qed.

(** ** Properties of the bind protocol *)

(** C1: after any history of calls the storage holds at most one bind
    record under any triple.  On a storage that answers and holds no record
    under the triple of the call, a first [BindApp] with a valid mode
    succeeds and adds that one record; a second call with the same triple
    fails with [ErrVolumeAlreadyBound] and leaves the storage as it is, with
    one record under the triple. *)
Theorem bind_triple_unique (v : Volume) (w : World) app mp mode mode' :
  wf_db (db w) → healthy (db w) → ¬ bound (bind_id v app mp) (db w) →
  valid_mode mode → valid_mode mode' →
  (∀ ops id,
     (length (filter (λ b, ID b = id) (VolumeBinds (db (run ops w)))) ≤ 1)%nat) ∧
  ∃ w1 w2,
    call (BindApp app mp mode) v w = (Ok tt, v, w1) ∧
    VolumeBinds (db w1)
      = VolumeBinds (db w) ++ [{| ID := bind_id v app mp; Mode := stored_mode mode |}] ∧
    Volumes (db w1) = Volumes (db w) ∧
    call (BindApp app mp mode') v w1 = (Err ErrVolumeAlreadyBound, v, w2) ∧
    db w2 = db w1 ∧
    length (filter (λ b, ID b = bind_id v app mp) (VolumeBinds (db w2))) = 1.
Proof.
  intros Hwf Hh Hfree Hmode Hmode'. split.
  { intros ops id. apply unique_ids_at_most_one. by apply run_wf. }
  destruct (BindApp_healthy v w app mp mode Hmode Hh) as (w1 & Henv & H1).
  apply (has_id_false ID) in Hfree as Hfree'. rewrite Hfree' in H1.
  destruct H1 as [Hcall1 Hdb1].
  assert (healthy (db w1)) as Hh1 by (rewrite Hdb1; apply Hh).
  destruct (BindApp_healthy v w1 app mp mode' Hmode' Hh1) as (w2 & Henv2 & H2).
  assert (bound (bind_id v app mp) (db w1)) as Hbound.
  { unfold bound. rewrite Hdb1. simpl. rewrite fmap_app. set_solver. }
  apply (has_id_true ID) in Hbound as Hbound'. rewrite Hbound' in H2.
  destruct H2 as [Hcall2 Hdb2].
  exists w1, w2. rewrite Hdb2, Hdb1. simpl. repeat split; try done.
  apply unique_ids_one; [|by rewrite Hdb1 in Hbound].
  apply unique_ids_snoc; [apply Hwf | done].
Qed.

Lemma wf_empty_db : wf_db empty_db.
Proof. split; apply NoDup_nil_2. Qed.

Lemma healthy_empty_db : healthy empty_db.
Proof. by split. Qed.

Lemma bind_triple_unique_witness :
  (wf_db (db sample_world) ∧ healthy (db sample_world) ∧
   ¬ bound (bind_id v1 "app1" "/data") (db sample_world)) ∧
  ∃ w1 w2,
    call (BindApp "app1" "/data" EmptyString) v1 sample_world = (Ok tt, v1, w1) ∧
    VolumeBinds (db w1) = [] ++ [the_bind] ∧
    Volumes (db w1) = [] ∧
    call (BindApp "app1" "/data" "ro") v1 w1 = (Err ErrVolumeAlreadyBound, v1, w2) ∧
    db w2 = db w1 ∧
    length (filter (λ b, ID b = bind_id v1 "app1" "/data") (VolumeBinds (db w2))) = 1.
Proof.
  assert (¬ bound (bind_id v1 "app1" "/data") (db sample_world)) as Hfree
    by apply not_elem_of_nil.
  split; [by auto using wf_empty_db, healthy_empty_db|].
  apply (bind_triple_unique v1 sample_world "app1" "/data" EmptyString "ro");
    [apply wf_empty_db | apply healthy_empty_db | exact Hfree
    | by left | by right; left].
Defined.

(** C7: a mode that is not empty, [ro] or [rw] is refused with the
    invalid-mode error before the storage is reached, so the world is
    returned as it was given and no record is made.  The text of the error
    shows [ro], [rw] and the refused mode as [%q] prints them: in double
    quotes, the refused mode with the escapes of the verb, so that it stands
    in the text as it is when its bytes are plain printable ones.  An empty
    mode is the mode [rw]: the two calls run alike, and on a storage that
    answers, for a free triple, the call with the empty mode succeeds and the
    record it stores under the triple carries [rw]. *)
Theorem BindApp_mode_check (v : Volume) (w : World) app mp mode :
  ¬ valid_mode mode →
  (call (BindApp app mp mode) v w
     = (Err (invalid_bind_mode (strconv_isPrint (env w)) mode), v, w) ∧
   Error (invalid_bind_mode (strconv_isPrint (env w)) mode)
     = "invalid bind mode, expected " +:+ dquote +:+ "ro" +:+ dquote +:+ " or "
       +:+ dquote +:+ "rw" +:+ dquote +:+ ", got "
       +:+ Quote (strconv_isPrint (env w)) mode ∧
   Contains (Error (invalid_bind_mode (strconv_isPrint (env w)) mode)) "ro" ∧
   Contains (Error (invalid_bind_mode (strconv_isPrint (env w)) mode)) "rw" ∧
   Contains (Error (invalid_bind_mode (strconv_isPrint (env w)) mode))
     (Quote (strconv_isPrint (env w)) mode) ∧
   (plain mode = true →
    Contains (Error (invalid_bind_mode (strconv_isPrint (env w)) mode)) mode)) ∧
  (call (BindApp app mp EmptyString) v w = call (BindApp app mp BindModeReadWrite) v w ∧
   (healthy (db w) → ¬ bound (bind_id v app mp) (db w) →
    ∃ w1,
      call (BindApp app mp EmptyString) v w = (Ok tt, v, w1) ∧
      {| ID := bind_id v app mp; Mode := "rw" |} ∈ VolumeBinds (db w1) ∧
      (∀ b, b ∈ VolumeBinds (db w1) → ID b = bind_id v app mp → Mode b = "rw") ∧
      (∀ b, b ∈ VolumeBinds (db w) → b ∈ VolumeBinds (db w1)))).
Proof.
  intros Hmode. split.
  - split; [by apply BindApp_invalid|]. split; [reflexivity|].
    split; [|split; [|split]].
    + by exists ("invalid bind mode, expected " +:+ dquote),
                (dquote +:+ " or " +:+ dquote +:+ "rw" +:+ dquote +:+ ", got "
                 +:+ Quote (strconv_isPrint (env w)) mode).
    + by exists ("invalid bind mode, expected " +:+ dquote +:+ "ro" +:+ dquote +:+ " or "
                 +:+ dquote),
                (dquote +:+ ", got " +:+ Quote (strconv_isPrint (env w)) mode).
    + exists ("invalid bind mode, expected " +:+ dquote +:+ "ro" +:+ dquote +:+ " or "
              +:+ dquote +:+ "rw" +:+ dquote +:+ ", got "), EmptyString.
      by rewrite append_Empty_r.
    + intros Hplain.
      exists ("invalid bind mode, expected " +:+ dquote +:+ "ro" +:+ dquote +:+ " or "
              +:+ dquote +:+ "rw" +:+ dquote +:+ ", got " +:+ dquote), dquote.
      unfold invalid_bind_mode, Quote.
      by rewrite (quoteBody_plain _ mode Hplain).
  - split; [reflexivity|]. intros Hh Hfree.
    assert (valid_mode EmptyString) as Hempty by (by left).
    destruct (BindApp_healthy v w app mp EmptyString Hempty Hh) as (w1 & _ & H1).
    apply (has_id_false ID) in Hfree as E. rewrite E in H1. destruct H1 as [Hc1 Hd1].
    exists w1. split; [done|]. rewrite Hd1. simpl. split; [|split].
    + apply elem_of_app. right. apply list_elem_of_here.
    + intros b [Hb | [-> | []%elem_of_nil]%elem_of_cons]%elem_of_app Hid; [|done].
      destruct Hfree. rewrite <- Hid. by apply list_elem_of_fmap_2.
    + intros b Hb. apply elem_of_app. by left.
Qed.

Lemma BindApp_mode_check_witness :
  (¬ valid_mode "xx" ∧ healthy (db sample_world) ∧
   ¬ bound (bind_id v1 "app1" "/data") (db sample_world)) ∧
  call (BindApp "app1" "/data" "xx") v1 sample_world
    = (Err (invalid_bind_mode (strconv_isPrint sample_env) "xx"), v1, sample_world) ∧
  Error (invalid_bind_mode (strconv_isPrint sample_env) "xx")
    = "invalid bind mode, expected " +:+ dquote +:+ "ro" +:+ dquote +:+ " or "
      +:+ dquote +:+ "rw" +:+ dquote +:+ ", got " +:+ dquote +:+ "xx" +:+ dquote ∧
  Contains (Error (invalid_bind_mode (strconv_isPrint sample_env) "xx")) "xx" ∧
  ∃ w1,
    call (BindApp "app1" "/data" EmptyString) v1 sample_world = (Ok tt, v1, w1) ∧
    the_bind ∈ VolumeBinds (db w1).
Proof.
  assert (¬ valid_mode "xx") as Hmode by (by intros [? | [? | ?]]).
  assert (¬ bound (bind_id v1 "app1" "/data") (db sample_world)) as Hfree
    by apply not_elem_of_nil.
  split; [by auto using healthy_empty_db|].
  destruct (BindApp_mode_check v1 sample_world "app1" "/data" "xx" Hmode)
    as [(Hcall & Htext & _ & _ & _ & Hplain) [_ Hnorm]].
  destruct (Hnorm healthy_empty_db Hfree) as (w1 & Hc1 & Hin & _).
  split; [exact Hcall|]. split; [exact Htext|]. split; [by apply Hplain|].
  by exists w1.
Defined.

(** Against the literal reading of C7: a mode that is one line feed is
    refused, and the text of the error shows it as a backslash and the letter
    n in quotes; the line feed itself is nowhere in the text. *)
Lemma BindApp_mode_not_verbatim :
  ¬ valid_mode newline_mode ∧
  call (BindApp "app1" "/data" newline_mode) v1 sample_world
    = (Err (ErrorString
              ("invalid bind mode, expected " +:+ dquote +:+ "ro" +:+ dquote +:+ " or "
               +:+ dquote +:+ "rw" +:+ dquote +:+ ", got " +:+ dquote +:+ backslash
               +:+ "n" +:+ dquote)), v1, sample_world) ∧
  ¬ Contains
      ("invalid bind mode, expected " +:+ dquote +:+ "ro" +:+ dquote +:+ " or "
       +:+ dquote +:+ "rw" +:+ dquote +:+ ", got " +:+ dquote +:+ backslash
       +:+ "n" +:+ dquote) newline_mode.
Proof.
  split; [by intros [? | [? | ?]]|]. split; [reflexivity|].
  rewrite <- isInfix_spec. by vm_compute.
Qed.

(** C8: on a storage that answers, [UnbindApp] removes the record under the
    triple of the call and no other, and a call that finds no record under
    the triple fails with [ErrVolumeBindNotFound] and changes nothing.  So
    after a [BindApp] that succeeded, a first [UnbindApp] with the same
    coordinates succeeds and gives back the records there were, and a second
    one fails with [ErrVolumeBindNotFound]. *)
Theorem UnbindApp_removes_the_bind (v : Volume) (w : World) app mp :
  wf_db (db w) → healthy (db w) →
  (bound (bind_id v app mp) (db w) →
   ∃ w1 w2,
     call (UnbindApp app mp) v w = (Ok tt, v, w1) ∧
     VolumeBinds (db w1)
       = filter (λ b, ID b ≠ bind_id v app mp) (VolumeBinds (db w)) ∧
     Volumes (db w1) = Volumes (db w) ∧
     call (UnbindApp app mp) v w1 = (Err ErrVolumeBindNotFound, v, w2) ∧
     db w2 = db w1) ∧
  (¬ bound (bind_id v app mp) (db w) →
   (∃ w1, call (UnbindApp app mp) v w = (Err ErrVolumeBindNotFound, v, w1) ∧
          db w1 = db w) ∧
   ∀ mode, valid_mode mode →
     ∃ w1 w2 w3,
       call (BindApp app mp mode) v w = (Ok tt, v, w1) ∧
       call (UnbindApp app mp) v w1 = (Ok tt, v, w2) ∧
       VolumeBinds (db w2) = VolumeBinds (db w) ∧
       call (UnbindApp app mp) v w2 = (Err ErrVolumeBindNotFound, v, w3) ∧
       db w3 = db w2).
Proof.
  assert (∀ w0, wf_db (db w0) → healthy (db w0) → bound (bind_id v app mp) (db w0) →
     ∃ w1 w2,
       call (UnbindApp app mp) v w0 = (Ok tt, v, w1) ∧
       VolumeBinds (db w1)
         = filter (λ b, ID b ≠ bind_id v app mp) (VolumeBinds (db w0)) ∧
       Volumes (db w1) = Volumes (db w0) ∧
       call (UnbindApp app mp) v w1 = (Err ErrVolumeBindNotFound, v, w2) ∧
       db w2 = db w1) as Hpresent.
  { intros w0 Hwf Hh Hb.
    destruct (UnbindApp_healthy v w0 app mp Hh) as (w1 & _ & H1).
    apply (has_id_true ID) in Hb as Hb'. rewrite Hb' in H1. destruct H1 as [Hc1 Hd1].
    rewrite (remove_first_filter ID) in Hd1 by apply Hwf.
    assert (healthy (db w1)) as Hh1 by (rewrite Hd1; apply Hh).
    destruct (UnbindApp_healthy v w1 app mp Hh1) as (w2 & _ & H2).
    assert (has_id ID (bind_id v app mp) (VolumeBinds (db w1)) = false) as Hgone.
    { apply has_id_false. rewrite Hd1. simpl.
      intros (b & Hid & [Hne _]%list_elem_of_filter)%list_elem_of_fmap. by apply Hne. }
    rewrite Hgone in H2. destruct H2 as [Hc2 Hd2].
    exists w1, w2.
    repeat split; [done | by rewrite Hd1 | by rewrite Hd1 | done | done]. }
  intros Hwf Hh. split; [by apply Hpresent|]. intros Hfree. split.
  - destruct (UnbindApp_healthy v w app mp Hh) as (w1 & _ & H1).
    apply (has_id_false ID) in Hfree. rewrite Hfree in H1. by exists w1.
  - intros mode Hmode.
    destruct (BindApp_healthy v w app mp mode Hmode Hh) as (w1 & _ & H1).
    apply (has_id_false ID) in Hfree as Hfree'. rewrite Hfree' in H1.
    destruct H1 as [Hc1 Hd1].
    destruct (Hpresent w1) as (w2 & w3 & Hc2 & Hb2 & _ & Hc3 & Hd3).
    + rewrite Hd1. split; [apply Hwf|]. simpl. apply unique_ids_snoc; [apply Hwf|done].
    + rewrite Hd1. apply Hh.
    + unfold bound. rewrite Hd1. simpl. rewrite fmap_app. set_solver.
    + exists w1, w2, w3. repeat split; try done.
      rewrite Hb2, Hd1. simpl. rewrite filter_app, (filter_other_absent ID) by done.
      rewrite filter_cons_False by (intros Hn; by apply Hn). by rewrite app_nil_r.
Qed.

Lemma UnbindApp_removes_the_bind_witness :
  (wf_db (db bound_world) ∧ healthy (db bound_world) ∧
   bound (bind_id v1 "app1" "/data") (db bound_world)) ∧
  ∃ w1 w2,
    call (UnbindApp "app1" "/data") v1 bound_world = (Ok tt, v1, w1) ∧
    VolumeBinds (db w1)
      = filter (λ b, ID b ≠ bind_id v1 "app1" "/data") [the_bind] ∧
    Volumes (db w1) = [] ∧
    call (UnbindApp "app1" "/data") v1 w1 = (Err ErrVolumeBindNotFound, v1, w2) ∧
    db w2 = db w1.
Proof.
  assert (wf_db (db bound_world)) as Hwf.
  { split; [apply NoDup_nil_2 | apply NoDup_singleton]. }
  assert (healthy (db bound_world)) as Hh by (by split).
  assert (bound (bind_id v1 "app1" "/data") (db bound_world)) as Hb
    by apply list_elem_of_here.
  split; [done|].
  exact (proj1 (UnbindApp_removes_the_bind v1 bound_world "app1" "/data" Hwf Hh) Hb).
Defined.

(** ** Properties of [Save], [Load] and [ListByApp] *)

(** C5: [Save] is [Validate] and then an upsert under the volume's name.
    When [Validate] fails, [Save] returns what [Validate] returned, the very
    error, and the storage is as before.  When [Validate] succeeds and the
    storage answers, [Save] succeeds; the binds are untouched, and the
    document of the volume takes the place of the document stored under its
    name, or is added after the others when there was none. *)
Theorem Save_is_Validate_then_upsert (v : Volume) (w : World) :
  (∀ e v' w', call Validate v w = (Err e, v', w') →
     call Save v w = (Err e, v', w') ∧ db w' = db w) ∧
  (∀ v' w', call Validate v w = (Ok tt, v', w') → healthy (db w) →
     ∃ w'',
       call Save v w = (Ok tt, v', w'') ∧
       VolumeBinds (db w'') = VolumeBinds (db w) ∧
       Name (document v') = Name v ∧
       ((∃ c1 old c2,
           Volumes (db w) = c1 ++ (old :: c2) ∧ Name old = Name v ∧
           (Name v ∉ Name <$> c1) ∧
           Volumes (db w'') = c1 ++ (document v' :: c2))
        ∨ ((Name v ∉ Name <$> Volumes (db w)) ∧
           Volumes (db w'') = Volumes (db w) ++ [document v']))).
Proof.
  split.
  - intros e v' w' HV. rewrite Save_run, HV. split; [done|].
    pose proof (Validate_db v w) as [Hdb _]. by rewrite HV in Hdb.
  - intros v' w' HV [Hdial Hfault].
    destruct (Validate_ok_receiver v w v' w' HV) as (_ & Hdb & opts & ->).
    rewrite Save_run, HV, Hdb, Hdial, Hfault. simpl.
    eexists. split; [reflexivity|]. simpl. split; [done|]. split; [done|].
    unfold upsert_id.
    destruct (has_id Name (Name v) (Volumes (db w))) eqn:E.
    + left. apply has_id_true in E.
      destruct (replace_first_split Name (Name v) (document (set_Plan_Opts opts v))
                  (Volumes (db w)) E) as (c1 & old & c2 & Hc & Hold & Hc1 & Hrep).
      by exists c1, old, c2.
    + right. by apply has_id_false in E.
Qed.

Lemma Save_is_Validate_then_upsert_witness :
  (call Validate v1 stored_world
     = (Ok tt, set_Plan_Opts [("size", VString "10Gi")] v1,
        (call Validate v1 stored_world).2) ∧
   healthy (db stored_world)) ∧
  ∃ w'',
    call Save v1 stored_world
      = (Ok tt, set_Plan_Opts [("size", VString "10Gi")] v1, w'') ∧
    VolumeBinds (db w'') = [] ∧
    Name (document (set_Plan_Opts [("size", VString "10Gi")] v1)) = "v1" ∧
    ((∃ c1 old c2,
        Volumes (db stored_world) = c1 ++ (old :: c2) ∧ Name old = "v1" ∧
        ("v1" ∉ Name <$> c1) ∧
        Volumes (db w'')
          = c1 ++ (document (set_Plan_Opts [("size", VString "10Gi")] v1) :: c2))
     ∨ (("v1" ∉ Name <$> Volumes (db stored_world)) ∧
        Volumes (db w'')
          = Volumes (db stored_world)
              ++ [document (set_Plan_Opts [("size", VString "10Gi")] v1)])).
Proof.
  assert (call Validate v1 stored_world
          = (Ok tt, set_Plan_Opts [("size", VString "10Gi")] v1,
             (call Validate v1 stored_world).2)) as HV by reflexivity.
  assert (healthy (db stored_world)) as Hh by (by split).
  split; [done|].
  exact (proj2 (Save_is_Validate_then_upsert v1 stored_world) _ _ HV Hh).
Defined.

(** Saving [v1] over the older document leaves nothing of it. *)
Example Save_replaces_whole_document :
  Volumes (db (call Save v1 stored_world).2)
  = [{| Name := "v0"; Pool := "p1";
        Plan := {| Plan_Name := "plan1"; Plan_Opts := [] |};
        TeamOwner := "team1"; Status := "ok"; Opts := None |};
     {| Name := "v1"; Pool := "p1";
        Plan := {| Plan_Name := "plan1"; Plan_Opts := [("size", VString "10Gi")] |};
        TeamOwner := "team1"; Status := EmptyString; Opts := None |}].
Proof. by vm_compute. Qed.

(** C9: after a [Save] that succeeded, [Load] under the same name succeeds
    and returns the volume as [Save] left it in every field, except that
    [Opts] is the nil map when the saved one had no entry; and on a storage
    that answers, [Load] of a name under which nothing is stored fails with
    [ErrVolumeNotFound]. *)
Theorem Save_then_Load (v : Volume) (w : World) v' w' (name : string) (w0 : World) :
  call Save v w = (Ok tt, v', w') →
  healthy (db w0) → name ∉ Name <$> Volumes (db w0) →
  (∃ l w'',
     Load (Name v) w' = (Ok l, w'') ∧
     Name l = Name v' ∧ Pool l = Pool v' ∧ Plan l = Plan v' ∧
     TeamOwner l = TeamOwner v' ∧ Status l = Status v' ∧
     (Opts l = Opts v' ∨
      (Opts l = None ∧ ∃ m, Opts v' = Some m ∧ size m = 0)) ∧
     Name v' = Name v ∧ Pool v' = Pool v ∧ Plan_Name (Plan v') = Plan_Name (Plan v) ∧
     TeamOwner v' = TeamOwner v ∧ Status v' = Status v ∧ Opts v' = Opts v) ∧
  (∃ w1, Load name w0 = (Err ErrVolumeNotFound, w1) ∧ db w1 = db w0).
Proof.
  intros HS Hh0 Habsent. split.
  - rewrite Save_run in HS.
    destruct (call Validate v w) as [[[[]|e] v1'] w1] eqn:HV; [|discriminate].
    destruct (Validate_ok_receiver v w v1' w1 HV) as (_ & Hdb & opts & ->).
    destruct (dial (db w1)) eqn:Hdial; [discriminate|].
    destruct (fault (db w1)) eqn:Hfault; [discriminate|].
    injection HS as <- <-.
    edestruct (Load_healthy (Name v)) as (w'' & _ & _ & HL); [|rewrite HL].
    { by split. }
    simpl.
    change (Name v) with (Name (document (set_Plan_Opts opts v))) at 1 2.
    rewrite (find_id_upsert Name).
    eexists _, w''. split; [reflexivity|]. simpl. repeat split.
    unfold omitempty. destruct (Opts v) as [m|]; [|by left].
    case_bool_decide; [right; eauto | by left].
  - destruct (Load_healthy name w0 Hh0) as (w1 & _ & Hdb & HL).
    rewrite (find_id_absent Name) in HL by done. by exists w1.
Qed.

Lemma Save_then_Load_witness :
  (call Save v1 sample_world
     = (Ok tt, set_Plan_Opts [("size", VString "10Gi")] v1,
        (call Save v1 sample_world).2) ∧
   healthy (db sample_world) ∧ "v7" ∉ Name <$> Volumes (db sample_world)) ∧
  (∃ l w'',
     Load "v1" (call Save v1 sample_world).2 = (Ok l, w'') ∧
     Plan l = {| Plan_Name := "plan1"; Plan_Opts := [("size", VString "10Gi")] |}) ∧
  (∃ w1, Load "v7" sample_world = (Err ErrVolumeNotFound, w1)).
Proof.
  assert (call Save v1 sample_world
          = (Ok tt, set_Plan_Opts [("size", VString "10Gi")] v1,
             (call Save v1 sample_world).2)) as HS by (by vm_compute).
  assert ("v7" ∉ Name <$> Volumes (db sample_world)) as Habsent by apply not_elem_of_nil.
  split; [by auto using healthy_empty_db|].
  destruct (Save_then_Load v1 sample_world _ _ "v7" sample_world HS healthy_empty_db Habsent)
    as [(l & w'' & HL & _ & _ & HP & _) (w1 & HN & _)].
  split; [by exists l, w'' | by exists w1].
Defined.

(** The scenario of the specification: [v1] saved and loaded again. *)
Example Load_after_Save_v1 :
  (Load "v1" (call Save v1 sample_world).2).1
  = Ok {| Name := "v1"; Pool := "p1";
          Plan := {| Plan_Name := "plan1"; Plan_Opts := [("size", VString "10Gi")] |};
          TeamOwner := "team1"; Status := EmptyString; Opts := None |}.
Proof. by vm_compute. Qed.

(** C3: on a storage that answers, [ListByApp] succeeds and returns the
    stored volumes that some bind record of the app names, each once, however
    many mount points bind it; the list is empty when the app has no bind
    record; and a name that a bind record carries but no stored volume has
    gives no element and no error. *)
Theorem ListByApp_distinct_volumes (app : string) (w : World) :
  wf_db (db w) → healthy (db w) →
  ∃ vols w',
    ListByApp app w = (Ok vols, w') ∧ db w' = db w ∧
    NoDup vols ∧ NoDup (Name <$> vols) ∧
    (∀ v, v ∈ vols ↔
          v ∈ Volumes (db w) ∧
          ∃ b, b ∈ VolumeBinds (db w) ∧ ID_App (ID b) = app ∧ ID_Volume (ID b) = Name v) ∧
    ((∀ b, b ∈ VolumeBinds (db w) → ID_App (ID b) ≠ app) → vols = []) ∧
    (∀ b, b ∈ VolumeBinds (db w) → ID_App (ID b) = app →
          ID_Volume (ID b) ∉ Name <$> Volumes (db w) →
          ID_Volume (ID b) ∉ Name <$> vols).
Proof.
  intros [HV HB] Hh.
  destruct (ListByApp_healthy app w Hh) as (w' & _ & Hdb & HL).
  set (names := remove_dups _) in HL.
  assert (∀ n, n ∈ names ↔
               ∃ b, b ∈ VolumeBinds (db w) ∧ ID_App (ID b) = app ∧ ID_Volume (ID b) = n)
    as Hnames.
  { intros n. unfold names. rewrite elem_of_remove_dups, list_elem_of_fmap.
    split.
    - intros (b & -> & [Happ Hb]%list_elem_of_filter). by exists b.
    - intros (b & Hb & Happ & <-). exists b. split; [done|].
      by apply list_elem_of_filter. }
  assert (∀ v, v ∈ filter (λ v, Name v ∈ names) (Volumes (db w)) ↔
               v ∈ Volumes (db w) ∧
               ∃ b, b ∈ VolumeBinds (db w) ∧ ID_App (ID b) = app
                    ∧ ID_Volume (ID b) = Name v) as Hvols.
  { intros v. rewrite list_elem_of_filter, Hnames. tauto. }
  eexists _, w'. split; [exact HL|]. split; [done|].
  assert (NoDup (Name <$> filter (λ v, Name v ∈ names) (Volumes (db w)))) as Hnd
    by (by apply (unique_ids_filter Name)).
  split; [by eapply NoDup_fmap_1|]. split; [done|]. split; [done|]. split.
  - intros Hnone.
    destruct (filter _ (Volumes (db w))) as [|v l] eqn:E; [done|].
    assert (v ∈ v :: l) as Hin by apply list_elem_of_here.
    apply Hvols in Hin as (_ & b & Hb & Happ & _).
    by destruct (Hnone b Hb).
  - intros b Hb Happ Hmissing (v & Hn & [_ Hv]%list_elem_of_filter)%list_elem_of_fmap.
    apply Hmissing. rewrite Hn. by apply list_elem_of_fmap_2.
Qed.

Lemma wf_busy_world : wf_db (db busy_world).
Proof. split; unfold unique_ids; apply (bool_decide_unpack _); by vm_compute. Qed.

Lemma ListByApp_distinct_volumes_witness :
  (wf_db (db busy_world) ∧ healthy (db busy_world)) ∧
  ∃ vols w',
    ListByApp "app1" busy_world = (Ok vols, w') ∧ db w' = db busy_world ∧
    NoDup vols ∧ NoDup (Name <$> vols).
Proof.
  assert (healthy (db busy_world)) as Hh by (by split).
  split; [by auto using wf_busy_world|].
  destruct (ListByApp_distinct_volumes "app1" busy_world wf_busy_world Hh)
    as (vols & w' & HL & Hdb & Hnd & Hndn & _).
  by exists vols, w'.
Defined.

Example ListByApp_app1 :
  (ListByApp "app1" busy_world).1 = Ok [document v1] ∧
  (ListByApp "app2" busy_world).1 = Ok [].
Proof. by vm_compute. Qed.

(** ** The scenarios of the specification *)

(** [BindApp("app1", "/data", "rw")] on [v1], then the same call again:
    [Binds] returns the one record. *)
Example Binds_after_two_BindApp :
  let w1 := (call (BindApp "app1" "/data" "rw") v1 sample_world).2 in
  let w2 := (call (BindApp "app1" "/data" "rw") v1 w1).2 in
  (call (BindApp "app1" "/data" "rw") v1 w1).1.1 = Err ErrVolumeAlreadyBound ∧
  (call Binds v1 w2).1.1 = Ok [the_bind].
Proof. by vm_compute. Qed.

(** A connection that cannot be opened is reported wrapped, and nothing is
    sent to the storage. *)
Example BindApp_without_connection :
  let w := {| env := sample_env;
              db := {| dial := Some (Foreign "no reachable servers"); fault := None;
                       Volumes := []; VolumeBinds := [] |};
              trace := [] |} in
  (call (BindApp "app1" "/data" "rw") v1 w).1.1
    = Err (withStack (Foreign "no reachable servers")) ∧
  trace (call (BindApp "app1" "/data" "rw") v1 w).2 = [EvConn].
Proof. by vm_compute. Qed.

(** ** Runs on any storage, answering or not *)

Lemma BindApp_run (v : Volume) (w : World) app mp mode :
  valid_mode mode →
  call (BindApp app mp mode) v w =
    let b := {| ID := bind_id v app mp; Mode := stored_mode mode |} in
    let w1 := emit EvConn w in
    let w2 := emit (EvInsert (bind_id v app mp)) w1 in
    match dial (db w) with
    | Some e => (Err (withStack e), v, w1)
    | None =>
        match fault (db w) with
        | Some e =>
            (Err (if mgo_IsDup e then ErrVolumeAlreadyBound else withStack e), v,
             emit EvClose w2)
        | None =>
            if has_id ID (bind_id v app mp) (VolumeBinds (db w))
            then (Err ErrVolumeAlreadyBound, v, emit EvClose w2)
            else (Ok tt, v,
                  emit EvClose
                    {| env := env w;
                       db := with_VolumeBinds (VolumeBinds (db w) ++ [b]) (db w);
                       trace := trace w2 |})
        end
    end.
Proof.
  intros Hmode. unfold BindApp. fold (stored_mode mode).
  rewrite valid_mode_check by done.
  unfold VolumeBinds_Insert, insert_doc. unfold_go. simpl. fold (bind_id v app mp).
  destruct (dial (db w)); simpl; [done|].
  destruct (fault (db w)); simpl; [done|].
  by destruct (has_id ID (bind_id v app mp) (VolumeBinds (db w))).
Qed.

Lemma UnbindApp_run (v : Volume) (w : World) app mp :
  call (UnbindApp app mp) v w =
    let w1 := emit EvConn w in
    let w2 := emit (EvRemoveId (bind_id v app mp)) w1 in
    match dial (db w) with
    | Some e => (Err (withStack e), v, w1)
    | None =>
        match fault (db w) with
        | Some e =>
            (Err (if bool_decide (e = mgo_ErrNotFound) then ErrVolumeBindNotFound
                  else withStack e), v, emit EvClose w2)
        | None =>
            if has_id ID (bind_id v app mp) (VolumeBinds (db w))
            then (Ok tt, v,
                  emit EvClose
                    {| env := env w;
                       db := with_VolumeBinds
                               (remove_first ID (bind_id v app mp) (VolumeBinds (db w)))
                               (db w);
                       trace := trace w2 |})
            else (Err ErrVolumeBindNotFound, v, emit EvClose w2)
        end
    end.
Proof.
  unfold UnbindApp, VolumeBinds_RemoveId, remove_id. unfold_go. simpl.
  fold (bind_id v app mp).
  destruct (dial (db w)); simpl; [done|].
  destruct (fault (db w)); simpl; [done|].
  by destruct (has_id ID (bind_id v app mp) (VolumeBinds (db w))).
Qed.

Lemma Binds_run (v : Volume) (w : World) :
  call Binds v w =
    let w1 := emit EvConn w in
    let w2 := emit EvClose (emit EvFind w1) in
    match dial (db w) with
    | Some e => (Err (withStack e), v, w1)
    | None =>
        match fault (db w) with
        | Some e => (Err e, v, w2)
        | None =>
            (Ok (filter (λ b, ID_Volume (ID b) = Name v) (VolumeBinds (db w))), v, w2)
        end
    end.
Proof.
  unfold Binds, VolumeBinds_Find_volume. unfold_go. simpl.
  destruct (dial (db w)); simpl; [done|].
  destruct (fault (db w)); simpl; [done|].
  by destruct w as [? [] ?].
Qed.

Lemma ListByApp_run (app : string) (w : World) :
  ListByApp app w =
    let w1 := emit EvConn w in
    match dial (db w) with
    | Some e => (Err (withStack e), w1)
    | None =>
        match fault (db w) with
        | Some e => (Err e, emit EvClose (emit EvDistinct w1))
        | None =>
            (Ok (filter (λ v, Name v ∈
                           remove_dups ((λ b, ID_Volume (ID b)) <$>
                                          filter (λ b, ID_App (ID b) = app)
                                            (VolumeBinds (db w))))
                   (Volumes (db w))),
             emit EvClose (emit EvFind (emit EvDistinct w1)))
        end
    end.
Proof.
  unfold ListByApp, VolumeBinds_Distinct_volume, Volumes_Find_in. unfold_go. simpl.
  destruct (dial (db w)); simpl; [done|].
  destruct (fault (db w)) eqn:Hfault; simpl; [done|].
  rewrite Hfault. simpl. by destruct w as [? [] ?].
Qed.

Lemma Load_run (name : string) (w : World) :
  Load name w =
    let w1 := emit EvConn w in
    let w2 := emit EvClose (emit (EvFindId name) w1) in
    match dial (db w) with
    | Some e => (Err (withStack e), w1)
    | None =>
        match fault (db w) with
        | Some e =>
            (Err (if bool_decide (e = mgo_ErrNotFound) then ErrVolumeNotFound
                  else withStack e), w2)
        | None =>
            match find_id Name name (Volumes (db w)) with
            | Ok v => (Ok v, w2)
            | Err _ => (Err ErrVolumeNotFound, w2)
            end
        end
    end.
Proof.
  unfold Load, Volumes_FindId, find_id. unfold_go. simpl.
  destruct (dial (db w)); simpl; [done|].
  destruct (fault (db w)); simpl; [done|].
  destruct (list_find _ (Volumes (db w))) as [[i x]|]; simpl; by destruct w as [? [] ?].
Qed.

(** ** Further properties of validation *)

(** X1: a volume with a name, whose pool, team, provisioner and plan entry
    are all found and whose entry converts to a string-keyed mapping, is
    accepted: the plan options become that mapping, and the registries were
    asked once each, pool, team, provisioner, configuration, in that order. *)
Theorem Validate_accepts_resolved (v : Volume) (w : World) pool team prov data opts :
  Name v ≠ EmptyString →
  provision_GetPoolByName (env w) (Pool v) = Ok pool →
  auth_GetTeam (env w) (TeamOwner v) = Ok team →
  GetProvisioner pool = Ok prov →
  config_Get (env w) (volumePlanKey (Plan_Name (Plan v)) (GetName prov)) = Ok data →
  ConvertEntries (env w) data = VMapStr opts →
  call Validate v w =
    (Ok tt, set_Plan_Opts opts v,
     {| env := env w; db := db w;
        trace := trace w ++ [EvGetPoolByName (Pool v); EvGetTeam (TeamOwner v);
                             EvGetProvisioner (Pool_Name pool);
                             EvConfigGet (volumePlanKey (Plan_Name (Plan v))
                                            (GetName prov))] |}).
Proof.
  intros Hname Hpool Hteam Hprov Hdata Hconv.
  rewrite Validate_run by done. simpl. rewrite Hpool, Hteam, Hprov, Hdata, Hconv.
  unfold emit. simpl. by rewrite <- !app_assoc.
Qed.

Lemma Validate_accepts_resolved_witness :
  call Validate v1 sample_world =
    (Ok tt, set_Plan_Opts [("size", VString "10Gi")] v1,
     {| env := sample_env; db := empty_db;
        trace := [EvGetPoolByName "p1"; EvGetTeam "team1"; EvGetProvisioner "p1";
                  EvConfigGet "volume-plans:plan1:docker"] |}).
Proof.
  by apply (Validate_accepts_resolved v1 sample_world
              {| Pool_Name := "p1"; GetProvisioner := Ok {| GetName := "docker" |} |}
              "team1" {| GetName := "docker" |} (VMapIface [("size", VString "10Gi")])
              [("size", VString "10Gi")]).
Defined.

(** X2: the checks of [Validate] fail in their order, each with the error of
    the registry wrapped and its text kept, and the registries after the
    failing one are not asked: an unknown pool hides an unknown team, an
    unknown team hides a pool without provisioner, and so on. *)
Theorem Validate_reports_first_failure (v : Volume) (w : World) :
  Name v ≠ EmptyString →
  (∀ e, provision_GetPoolByName (env w) (Pool v) = Err e →
     call Validate v w = (Err (withStack e), v, emit (EvGetPoolByName (Pool v)) w)) ∧
  (∀ pool e,
     provision_GetPoolByName (env w) (Pool v) = Ok pool →
     auth_GetTeam (env w) (TeamOwner v) = Err e →
     call Validate v w
       = (Err (withStack e), v,
          emit (EvGetTeam (TeamOwner v)) (emit (EvGetPoolByName (Pool v)) w))) ∧
  (∀ pool team e,
     provision_GetPoolByName (env w) (Pool v) = Ok pool →
     auth_GetTeam (env w) (TeamOwner v) = Ok team →
     GetProvisioner pool = Err e →
     call Validate v w
       = (Err (withStack e), v,
          emit (EvGetProvisioner (Pool_Name pool))
            (emit (EvGetTeam (TeamOwner v)) (emit (EvGetPoolByName (Pool v)) w)))) ∧
  (∀ pool team prov e,
     provision_GetPoolByName (env w) (Pool v) = Ok pool →
     auth_GetTeam (env w) (TeamOwner v) = Ok team →
     GetProvisioner pool = Ok prov →
     config_Get (env w) (volumePlanKey (Plan_Name (Plan v)) (GetName prov)) = Err e →
     (call Validate v w).1 = (Err (withStack e), v)) ∧
  (∀ e, Error (withStack e) = Error e).
Proof.
  intros Hname. repeat split.
  - intros e He. rewrite Validate_run by done. simpl. by rewrite He.
  - intros pool e Hp He. rewrite Validate_run by done. simpl. by rewrite Hp, He.
  - intros pool team e Hp Ht He. rewrite Validate_run by done. simpl.
    by rewrite Hp, Ht, He.
  - intros pool team prov e Hp Ht Hpr He. rewrite Validate_run by done. simpl.
    by rewrite Hp, Ht, Hpr, He.
Qed.

Lemma Validate_reports_first_failure_witness :
  Name v_stranger ≠ EmptyString ∧
  call Validate v_stranger sample_world
  = (Err (withStack (Foreign "Pool does not exist.")), v_stranger,
     emit (EvGetPoolByName "nowhere") sample_world).
Proof.
  assert (Name v_stranger ≠ EmptyString) as Hname by done.
  split; [exact Hname|].
  destruct (Validate_reports_first_failure v_stranger sample_world Hname) as [Hpool _].
  exact (Hpool (Foreign "Pool does not exist.") eq_refl).
Defined.

(** X3: [Validate] only asks registries: whatever it returns, the storage
    and the registries are as before, no connection was opened, and the
    trace has grown by at most four events, all of them lookups. *)
Theorem Validate_never_reaches_storage (v : Volume) (w : World) :
  ∃ evs,
    trace (call Validate v w).2 = trace w ++ evs ∧
    forallb is_lookup evs = true ∧ (length evs ≤ 4)%nat ∧
    db (call Validate v w).2 = db w ∧ env (call Validate v w).2 = env w.
Proof.
  destruct (decide (Name v = EmptyString)) as [Hname|Hname].
  - rewrite Validate_empty_name by done. exists []. simpl.
    rewrite app_nil_r. repeat split; lia.
  - rewrite Validate_run by done. simpl.
    destruct (provision_GetPoolByName (env w) (Pool v)) as [pool|]; simpl.
    2: { eexists [_]. repeat split; simpl; lia. }
    destruct (auth_GetTeam (env w) (TeamOwner v)); simpl.
    2: { eexists [_; _]. rewrite <- !app_assoc. repeat split; simpl; lia. }
    destruct (GetProvisioner pool) as [prov|]; simpl.
    2: { eexists [_; _; _]. rewrite <- !app_assoc. repeat split; simpl; lia. }
    destruct (config_Get (env w) _); simpl.
    2: { eexists [_; _; _; _]. rewrite <- !app_assoc. repeat split; simpl; lia. }
    destruct (ConvertEntries (env w) a0); simpl;
      (eexists [_; _; _; _]; rewrite <- !app_assoc; repeat split; simpl; lia).
Qed.

(** What [Validate] has resolved it resolves to the same. *)
Lemma Validate_accepts_its_result (v : Volume) (w : World) v' w' :
  call Validate v w = (Ok tt, v', w') →
  ∃ w'', call Validate v' w' = (Ok tt, v', w'').
Proof.
  intros HV. pose proof (Validate_db v w) as [_ Henv]. rewrite HV in Henv.
  simpl in Henv.
  destruct (decide (Name v = EmptyString)) as [Hname|Hname].
  { rewrite Validate_empty_name in HV by done. discriminate. }
  rewrite Validate_run in HV by done. simpl in HV.
  destruct (provision_GetPoolByName (env w) (Pool v)) as [pool|] eqn:Epool; [|discriminate].
  destruct (auth_GetTeam (env w) (TeamOwner v)) as [team|] eqn:Eteam; [|discriminate].
  destruct (GetProvisioner pool) as [prov|] eqn:Eprov; [|discriminate].
  destruct (config_Get (env w) _) as [data|] eqn:Edata; [|discriminate].
  destruct (ConvertEntries (env w) data) as [| | | | |opts|] eqn:Econv; try discriminate.
  injection HV as <- Hw'.
  eexists. rewrite Validate_run by done. simpl.
  by rewrite Henv, Epool, Eteam, Eprov, Edata, Econv.
Qed.

(** X4: a volume that [Validate] accepted is accepted again as it is: a
    second call in the world the first one left returns no error and changes
    no field of the receiver. *)
Theorem Validate_twice (v : Volume) (w : World) v' w' :
  call Validate v w = (Ok tt, v', w') →
  ∃ w'', call Validate v' w' = (Ok tt, v', w'').
Proof. apply Validate_accepts_its_result. Qed.

Lemma Validate_twice_witness :
  call Validate v1 sample_world
    = (Ok tt, set_Plan_Opts [("size", VString "10Gi")] v1,
       (call Validate v1 sample_world).2) ∧
  ∃ w'', call Validate (set_Plan_Opts [("size", VString "10Gi")] v1)
           (call Validate v1 sample_world).2
         = (Ok tt, set_Plan_Opts [("size", VString "10Gi")] v1, w'').
Proof.
  split; [reflexivity|].
  exact (Validate_twice v1 sample_world _ _ eq_refl).
Defined.

(** ** Further facts on collections *)

Section UpsertFacts.
Context {D K : Type} `{EqDecision K} (id : D → K).

Lemma replace_first_here (k : K) (d d0 : D) (c1 c2 : list D) :
  k ∉ id <$> c1 → id d0 = k →
  replace_first id k d (c1 ++ (d0 :: c2)) = c1 ++ (d :: c2).
Proof.
  intros Hk Hd0. induction c1 as [|x c1 IH]; simpl.
  - by rewrite decide_True.
  - apply not_elem_of_cons in Hk as [Hx Hk].
    rewrite decide_False by congruence. by rewrite IH.
Qed.

(** Every upsert leaves the document where a second one looks for it. *)
Lemma upsert_id_split (d : D) (c : list D) :
  ∃ c1 c2, upsert_id id (id d) d c = c1 ++ (d :: c2) ∧ id d ∉ id <$> c1.
Proof.
  unfold upsert_id. destruct (has_id id (id d) c) eqn:E.
  - apply has_id_true in E.
    destruct (replace_first_split id (id d) d c E) as (c1 & old & c2 & _ & _ & Hc1 & ->).
    by exists c1, c2.
  - apply has_id_false in E. by exists c, [].
Qed.

Lemma upsert_id_twice (d : D) (c : list D) :
  upsert_id id (id d) d (upsert_id id (id d) d c) = upsert_id id (id d) d c.
Proof.
  destruct (upsert_id_split d c) as (c1 & c2 & -> & Hc1).
  unfold upsert_id.
  assert (has_id id (id d) (c1 ++ d :: c2) = true) as ->.
  { apply has_id_true. rewrite fmap_app, fmap_cons. set_solver. }
  by apply replace_first_here.
Qed.

Lemma list_find_id_snoc (k : K) (d : D) (c : list D) :
  id d ≠ k →
  snd <$> list_find (λ x, id x = k) (c ++ [d]) = snd <$> list_find (λ x, id x = k) c.
Proof.
  intros Hd. induction c as [|x c IH]; simpl.
  - by rewrite decide_False.
  - destruct (decide (id x = k)); [done|].
    destruct (list_find _ (c ++ [d])) as [[i y]|], (list_find _ c) as [[j z]|];
      simpl in *; congruence.
Qed.

Lemma list_find_id_replace (k k' : K) (d : D) (c : list D) :
  id d ≠ k' → k ≠ k' →
  snd <$> list_find (λ x, id x = k') (replace_first id k d c)
  = snd <$> list_find (λ x, id x = k') c.
Proof.
  intros Hd Hk. induction c as [|x c IH]; simpl; [done|].
  destruct (decide (id x = k)) as [E|E]; simpl.
  - rewrite decide_False by done. rewrite decide_False by congruence. done.
  - destruct (decide (id x = k')); [done|].
    destruct (list_find _ (replace_first id k d c)) as [[i y]|],
             (list_find _ c) as [[j z]|]; simpl in *; congruence.
Qed.

(** An upsert under one id leaves what is found under every other id. *)
Lemma find_id_upsert_other (k' : K) (d : D) (c : list D) :
  k' ≠ id d → find_id id k' (upsert_id id (id d) d c) = find_id id k' c.
Proof.
  intros Hk. unfold find_id, upsert_id.
  destruct (has_id id (id d) c).
  - pose proof (list_find_id_replace (id d) k' d c) as H.
    destruct (list_find _ (replace_first id (id d) d c)) as [[i y]|],
             (list_find _ c) as [[j z]|]; simpl in H;
      try (specialize (H ltac:(congruence) ltac:(congruence))); congruence.
  - pose proof (list_find_id_snoc k' d c) as H.
    destruct (list_find _ (c ++ [d])) as [[i y]|], (list_find _ c) as [[j z]|];
      simpl in H; try (specialize (H ltac:(congruence))); congruence.
Qed.
End UpsertFacts.

(** ** Further properties of [Save] *)

(** X5: when the volume is valid and the storage cannot be written, because
    the connection is refused or because the backend fails the upsert, [Save]
    returns that error wrapped and stores nothing; the receiver has all the
    same been through [Validate] and carries the resolved plan options. *)
Theorem Save_storage_failure (v : Volume) (w : World) v' w1 e :
  call Validate v w = (Ok tt, v', w1) →
  dial (db w) = Some e ∨ (dial (db w) = None ∧ fault (db w) = Some e) →
  ∃ w2,
    call Save v w = (Err (withStack e), v', w2) ∧
    db w2 = db w ∧
    ∃ opts, v' = set_Plan_Opts opts v.
Proof.
  intros HV Hfail. destruct (Validate_ok_receiver v w v' w1 HV) as (_ & Hdb & Hopts).
  rewrite Save_run, HV, Hdb.
  destruct Hfail as [Hdial | [Hdial Hfault]].
  - rewrite Hdial. by eexists.
  - rewrite Hdial, Hfault. by eexists.
Qed.

Lemma Save_storage_failure_witness :
  (call Validate v1 offline_world
     = (Ok tt, set_Plan_Opts [("size", VString "10Gi")] v1,
        (call Validate v1 offline_world).2) ∧
   dial (db offline_world) = Some (Foreign "no reachable servers")) ∧
  ∃ w2,
    call Save v1 offline_world
      = (Err (withStack (Foreign "no reachable servers")),
         set_Plan_Opts [("size", VString "10Gi")] v1, w2) ∧
    db w2 = db offline_world.
Proof.
  split; [by split|].
  destruct (Save_storage_failure v1 offline_world
              (set_Plan_Opts [("size", VString "10Gi")] v1)
              (call Validate v1 offline_world).2 (Foreign "no reachable servers")
              eq_refl (or_introl eq_refl)) as (w2 & HS & Hdb & _).
  by exists w2.
Defined.

(** X6: saving again what [Save] has just stored changes nothing: the second
    call succeeds, the receiver and both collections are as the first call
    left them. *)
Theorem Save_twice (v : Volume) (w : World) v' w1 :
  call Save v w = (Ok tt, v', w1) →
  ∃ w2, call Save v' w1 = (Ok tt, v', w2) ∧ db w2 = db w1.
Proof.
  intros HS. rewrite Save_run in HS.
  destruct (call Validate v w) as [[[[]|e] v0] w0] eqn:HV; [|discriminate].
  destruct (Validate_ok_receiver v w v0 w0 HV) as (_ & Hdb0 & _).
  destruct (Validate_accepts_its_result v w v0 w0 HV) as (w0' & HV2).
  destruct (dial (db w0)) eqn:Hdial; [discriminate|].
  destruct (fault (db w0)) eqn:Hfault; [discriminate|].
  injection HS as <- <-.
  assert (∀ wa wb, env wa = env wb →
            (call Validate v0 wa).1 = (call Validate v0 wb).1) as Hsame.
  { intros wa wb Henv.
    destruct (decide (Name v0 = EmptyString)) as [Hn|Hn].
    - by rewrite !Validate_empty_name.
    - rewrite !Validate_run by done. simpl. rewrite Henv.
      repeat (step_result; try done).
      by destruct (ConvertEntries (env wb) a2). }
  set (w1 := emit EvClose _).
  specialize (Hsame w1 w0 eq_refl). rewrite HV2 in Hsame.
  pose proof (Validate_db v0 w1) as [Hdb1 _].
  rewrite Save_run.
  destruct (call Validate v0 w1) as [[r v2] w2] eqn:HV3. simpl in Hsame, Hdb1.
  injection Hsame as -> ->. rewrite Hdb1. simpl. rewrite Hdial, Hfault.
  eexists. split; [reflexivity|]. simpl. unfold with_Volumes. simpl.
  change (Name v0) with (Name (document v0)).
  by rewrite (upsert_id_twice Name).
Qed.

Lemma Save_twice_witness :
  call Save v1 sample_world
    = (Ok tt, set_Plan_Opts [("size", VString "10Gi")] v1,
       (call Save v1 sample_world).2) ∧
  ∃ w2, call Save (set_Plan_Opts [("size", VString "10Gi")] v1)
          (call Save v1 sample_world).2
        = (Ok tt, set_Plan_Opts [("size", VString "10Gi")] v1, w2) ∧
        db w2 = db (call Save v1 sample_world).2.
Proof.
  assert (call Save v1 sample_world
          = (Ok tt, set_Plan_Opts [("size", VString "10Gi")] v1,
             (call Save v1 sample_world).2)) as HS by (by vm_compute).
  split; [exact HS|]. exact (Save_twice v1 sample_world _ _ HS).
Defined.

(** X7: [Save] of a volume touches the document of its own name only:
    whatever [Save] returns, [Load] of any other name returns afterwards
    what it returned before, and the bind records are the same. *)
Theorem Save_keeps_other_volumes (v : Volume) (w : World) (name : string) :
  name ≠ Name v →
  (Load name (call Save v w).2).1 = (Load name w).1 ∧
  VolumeBinds (db (call Save v w).2) = VolumeBinds (db w).
Proof.
  intros Hname. rewrite Save_run.
  pose proof (Validate_db v w) as [Hdb _].
  destruct (call Validate v w) as [[[[]|e] v'] w1] eqn:HV; simpl in Hdb.
  - destruct (Validate_ok_receiver v w v' w1 HV) as (_ & _ & opts & ->).
    rewrite Hdb.
    destruct (dial (db w)) eqn:Hdial; simpl.
    { rewrite !Load_run. simpl. rewrite Hdb, Hdial. by simpl. }
    destruct (fault (db w)) eqn:Hfault; simpl.
    { rewrite !Load_run. simpl. rewrite Hdb, Hdial, Hfault. by simpl. }
    split; [|done]. rewrite !Load_run. simpl. rewrite Hdial, Hfault.
    change (Name v) with (Name (document (set_Plan_Opts opts v))) at 1.
    rewrite (find_id_upsert_other Name) by done.
    by destruct (find_id Name name (Volumes (db w))).
  - simpl. rewrite !Load_run. simpl. rewrite Hdb.
    by destruct (dial (db w)), (fault (db w)), (find_id Name name (Volumes (db w))).
Qed.

Lemma Save_keeps_other_volumes_witness :
  "v0" ≠ Name v1 ∧
  (Load "v0" (call Save v1 stored_world).2).1 = (Load "v0" stored_world).1 ∧
  VolumeBinds (db (call Save v1 stored_world).2) = VolumeBinds (db stored_world).
Proof.
  assert ("v0" ≠ Name v1) as Hname by done.
  split; [exact Hname|]. exact (Save_keeps_other_volumes v1 stored_world "v0" Hname).
Defined.

(** ** Further properties of the bind protocol *)

Lemma remove_first_filter_other {D K : Type} `{EqDecision K} (id : D → K)
    (P : D → Prop) `{∀ d, Decision (P d)} (k : K) (c : list D) :
  (∀ d, id d = k → ¬ P d) → filter P (remove_first id k c) = filter P c.
Proof.
  intros HP. induction c as [|d c IH]; simpl; [done|].
  destruct (decide (id d = k)) as [E|E].
  - by rewrite (filter_cons_False _ d c) by by apply HP.
  - rewrite !filter_cons. destruct (decide (P d)); by rewrite IH.
Qed.

(** A call of [BindApp] that returned no error was given a valid mode, found
    the storage answering and the triple free, and added the record. *)
Lemma BindApp_ok_inv (v : Volume) (w : World) app mp mode v' w' :
  call (BindApp app mp mode) v w = (Ok tt, v', w') →
  valid_mode mode ∧ healthy (db w) ∧ v' = v ∧ env w' = env w ∧
  ¬ bound (bind_id v app mp) (db w) ∧
  db w' = with_VolumeBinds
            (VolumeBinds (db w)
               ++ [{| ID := bind_id v app mp; Mode := stored_mode mode |}]) (db w).
Proof.
  destruct (decide (valid_mode mode)) as [Hmode|Hmode].
  - rewrite BindApp_run by done. simpl.
    destruct (dial (db w)) eqn:Hdial; [discriminate|].
    destruct (fault (db w)) eqn:Hfault; [discriminate|].
    destruct (has_id ID (bind_id v app mp) (VolumeBinds (db w))) eqn:E; [discriminate|].
    intros [= <- <-]. apply has_id_false in E. by repeat split.
  - rewrite BindApp_invalid by done. discriminate.
Qed.

(** X8: on a storage that answers, [Binds] returns the bind records of the
    receiver's name and no other, in the order the storage holds them; it
    returns the empty list, not an error, when there is none, and leaves the
    receiver and the storage as they were. *)
Theorem Binds_lists_the_binds_of_the_volume (v : Volume) (w : World) :
  healthy (db w) →
  ∃ bs w',
    call Binds v w = (Ok bs, v, w') ∧ db w' = db w ∧
    (∀ b, b ∈ bs ↔ b ∈ VolumeBinds (db w) ∧ ID_Volume (ID b) = Name v) ∧
    bs `sublist_of` VolumeBinds (db w) ∧
    ((∀ b, b ∈ VolumeBinds (db w) → ID_Volume (ID b) ≠ Name v) → bs = []).
Proof.
  intros [Hdial Hfault]. rewrite Binds_run. simpl. rewrite Hdial, Hfault.
  eexists _, _. split; [reflexivity|]. split; [done|]. split; [|split].
  - intros b. rewrite list_elem_of_filter. tauto.
  - apply sublist_filter.
  - intros Hnone.
    destruct (filter _ (VolumeBinds (db w))) as [|b l] eqn:E; [done|].
    assert (b ∈ b :: l) as Hin by apply list_elem_of_here.
    rewrite <- E in Hin. apply list_elem_of_filter in Hin as [Hv Hb].
    by destruct (Hnone b Hb).
Qed.

Lemma Binds_lists_the_binds_of_the_volume_witness :
  healthy (db busy_world) ∧
  ∃ bs w',
    call Binds v1 busy_world = (Ok bs, v1, w') ∧ db w' = db busy_world ∧
    bs `sublist_of` VolumeBinds (db busy_world).
Proof.
  assert (healthy (db busy_world)) as Hh by (by split).
  split; [exact Hh|].
  destruct (Binds_lists_the_binds_of_the_volume v1 busy_world Hh)
    as (bs & w' & HB & Hdb & _ & Hsub & _).
  by exists bs, w'.
Defined.

(** X9: when the connection is refused, every operation on the storage
    returns the error of the connection wrapped, has sent nothing to the
    storage and has nothing to close: the trace has grown by the attempt to
    connect alone. *)
Theorem refused_connection (v : Volume) (w : World) app mp mode name e :
  dial (db w) = Some e → valid_mode mode →
  call (BindApp app mp mode) v w = (Err (withStack e), v, emit EvConn w) ∧
  call (UnbindApp app mp) v w = (Err (withStack e), v, emit EvConn w) ∧
  call Binds v w = (Err (withStack e), v, emit EvConn w) ∧
  ListByApp app w = (Err (withStack e), emit EvConn w) ∧
  Load name w = (Err (withStack e), emit EvConn w).
Proof.
  intros Hdial Hmode.
  rewrite BindApp_run, UnbindApp_run, Binds_run, ListByApp_run, Load_run by done.
  simpl. by rewrite Hdial.
Qed.

Lemma refused_connection_witness :
  (dial (db offline_world) = Some (Foreign "no reachable servers") ∧ valid_mode "ro") ∧
  call (BindApp "app3" "/srv" "ro") v1 offline_world
    = (Err (withStack (Foreign "no reachable servers")), v1, emit EvConn offline_world) ∧
  Load "v1" offline_world
    = (Err (withStack (Foreign "no reachable servers")), emit EvConn offline_world).
Proof.
  assert (valid_mode "ro") as Hmode by (by right; left).
  split; [by split|].
  destruct (refused_connection v1 offline_world "app3" "/srv" "ro" "v1"
              (Foreign "no reachable servers") eq_refl Hmode)
    as (HB & _ & _ & _ & HL).
  by split.
Defined.

(** X10: when the backend fails what it is sent, the storage is left as it
    was and the connection is closed.  [BindApp] reports a duplicate-key
    failure as [ErrVolumeAlreadyBound] and wraps any other; [UnbindApp] and
    [Load] report the driver's not-found as their own not-found error and
    wrap any other; [Binds] hands the failure of its query on as it is, not
    wrapped, and so does [ListByApp] with the failure of its first query. *)
Theorem failing_backend (v : Volume) (w : World) app mp mode name e :
  dial (db w) = None → fault (db w) = Some e → valid_mode mode →
  (∃ w', call (BindApp app mp mode) v w
           = (Err (if mgo_IsDup e then ErrVolumeAlreadyBound else withStack e), v, w') ∧
         db w' = db w ∧ last (trace w') = Some EvClose) ∧
  (∃ w', call (UnbindApp app mp) v w
           = (Err (if bool_decide (e = mgo_ErrNotFound) then ErrVolumeBindNotFound
                   else withStack e), v, w') ∧
         db w' = db w ∧ last (trace w') = Some EvClose) ∧
  (∃ w', call Binds v w = (Err e, v, w') ∧
         db w' = db w ∧ last (trace w') = Some EvClose) ∧
  (∃ w', ListByApp app w = (Err e, w') ∧
         db w' = db w ∧ last (trace w') = Some EvClose) ∧
  (∃ w', Load name w
           = (Err (if bool_decide (e = mgo_ErrNotFound) then ErrVolumeNotFound
                   else withStack e), w') ∧
         db w' = db w ∧ last (trace w') = Some EvClose).
Proof.
  intros Hdial Hfault Hmode.
  rewrite BindApp_run, UnbindApp_run, Binds_run, ListByApp_run, Load_run by done.
  simpl. rewrite Hdial, Hfault.
  repeat split; (eexists; split; [reflexivity|]; simpl; split; [done|apply last_snoc]).
Qed.

Lemma failing_backend_witness :
  (dial (db failing_world) = None ∧
   fault (db failing_world) = Some (Foreign "cursor timed out") ∧ valid_mode "rw") ∧
  (∃ w', call (BindApp "app3" "/srv" "rw") v1 failing_world
           = (Err (withStack (Foreign "cursor timed out")), v1, w')) ∧
  (∃ w', call Binds v1 failing_world = (Err (Foreign "cursor timed out"), v1, w')).
Proof.
  assert (valid_mode "rw") as Hmode by (by right; right).
  split; [by repeat split|].
  destruct (failing_backend v1 failing_world "app3" "/srv" "rw" "v1"
              (Foreign "cursor timed out") eq_refl eq_refl Hmode)
    as ((w1 & HB & _) & _ & (w2 & HBs & _) & _).
  split; [by exists w1 | by exists w2].
Defined.

(** X11: a [BindApp] that succeeded shows in [Binds]: the records [Binds]
    returns for the volume afterwards are the ones it returned before and the
    new record, under the mode stored, each as often as before and the new
    one once. *)
Theorem Binds_after_BindApp (v : Volume) (w : World) app mp mode v' w1 :
  call (BindApp app mp mode) v w = (Ok tt, v', w1) →
  ∃ bs bs',
    (call Binds v w).1.1 = Ok bs ∧
    (call Binds v w1).1.1 = Ok bs' ∧
    bs' ≡ₚ {| ID := bind_id v app mp; Mode := stored_mode mode |} :: bs.
Proof.
  intros (_ & [Hdial Hfault] & _ & _ & _ & Hdb)%BindApp_ok_inv.
  rewrite !Binds_run. simpl. rewrite Hdb. simpl. rewrite Hdial, Hfault. simpl.
  eexists _, _. split; [reflexivity|]. split; [reflexivity|].
  rewrite filter_app. rewrite filter_cons_True by done.
  rewrite filter_nil. symmetry. apply Permutation_cons_append.
Qed.

Lemma Binds_after_BindApp_witness :
  call (BindApp "app2" "/data" "ro") v1 bound_world
    = (Ok tt, v1, (call (BindApp "app2" "/data" "ro") v1 bound_world).2) ∧
  ∃ bs bs',
    (call Binds v1 bound_world).1.1 = Ok bs ∧
    (call Binds v1 (call (BindApp "app2" "/data" "ro") v1 bound_world).2).1.1 = Ok bs' ∧
    bs' ≡ₚ other_bind :: bs.
Proof.
  assert (call (BindApp "app2" "/data" "ro") v1 bound_world
          = (Ok tt, v1, (call (BindApp "app2" "/data" "ro") v1 bound_world).2)) as HB
    by (by vm_compute).
  split; [exact HB|].
  exact (Binds_after_BindApp v1 bound_world "app2" "/data" "ro" _ _ HB).
Defined.

(** X12: binding and unbinding a volume concern that volume's records only.
    Whatever [BindApp] or [UnbindApp] returns, [Binds] of a volume of another
    name and [Load] of any name return afterwards what they returned
    before. *)
Theorem bind_calls_keep_the_rest (v u : Volume) (w : World) app mp mode name :
  Name u ≠ Name v →
  (call Binds u (call (BindApp app mp mode) v w).2).1.1 = (call Binds u w).1.1 ∧
  (call Binds u (call (UnbindApp app mp) v w).2).1.1 = (call Binds u w).1.1 ∧
  (Load name (call (BindApp app mp mode) v w).2).1 = (Load name w).1 ∧
  (Load name (call (UnbindApp app mp) v w).2).1 = (Load name w).1.
Proof.
  intros Hname.
  assert (∀ w', dial (db w') = dial (db w) → fault (db w') = fault (db w) →
            filter (λ b, ID_Volume (ID b) = Name u) (VolumeBinds (db w'))
            = filter (λ b, ID_Volume (ID b) = Name u) (VolumeBinds (db w)) →
            (call Binds u w').1.1 = (call Binds u w).1.1) as HBinds.
  { intros w' Hd Hf Hb. rewrite !Binds_run. simpl. rewrite Hd, Hf, Hb.
    by destruct (dial (db w)), (fault (db w)). }
  assert (∀ w', dial (db w') = dial (db w) → fault (db w') = fault (db w) →
            Volumes (db w') = Volumes (db w) →
            (Load name w').1 = (Load name w).1) as HLoad.
  { intros w' Hd Hf Hv. rewrite !Load_run. simpl. rewrite Hd, Hf, Hv.
    by destruct (dial (db w)), (fault (db w)), (find_id Name name (Volumes (db w))). }
  assert (∀ P : World → Prop,
            P w →
            P {| env := env w;
                 db := with_VolumeBinds
                         (VolumeBinds (db w)
                            ++ [{| ID := bind_id v app mp; Mode := stored_mode mode |}])
                         (db w);
                 trace := [] |} →
            (∀ w' t, P w' → P {| env := env w'; db := db w'; trace := t |}) →
            P (call (BindApp app mp mode) v w).2) as HB.
  { intros P Hw Hadd Ht. destruct (decide (valid_mode mode)) as [Hmode|Hmode].
    - rewrite BindApp_run by done. simpl.
      destruct (dial (db w)); simpl; [by apply (Ht w)|].
      destruct (fault (db w)); simpl; [by apply (Ht w)|].
      destruct (has_id ID (bind_id v app mp) (VolumeBinds (db w))); simpl;
        [by apply (Ht w)|]. by apply (Ht _ _ Hadd).
    - by rewrite BindApp_invalid. }
  assert (∀ P : World → Prop,
            P w →
            P {| env := env w;
                 db := with_VolumeBinds
                         (remove_first ID (bind_id v app mp) (VolumeBinds (db w))) (db w);
                 trace := [] |} →
            (∀ w' t, P w' → P {| env := env w'; db := db w'; trace := t |}) →
            P (call (UnbindApp app mp) v w).2) as HU.
  { intros P Hw Hrem Ht. rewrite UnbindApp_run. simpl.
    destruct (dial (db w)); simpl; [by apply (Ht w)|].
    destruct (fault (db w)); simpl; [by apply (Ht w)|].
    destruct (has_id ID (bind_id v app mp) (VolumeBinds (db w))); simpl;
      [by apply (Ht _ _ Hrem) | by apply (Ht w)]. }
  repeat split.
  - apply (HB (λ w', (call Binds u w').1.1 = (call Binds u w).1.1)); [done| |].
    + apply HBinds; [done|done|]. simpl. rewrite filter_app.
      rewrite filter_cons_False by (simpl; congruence). by rewrite app_nil_r.
    + intros w' t Hw'. rewrite <- Hw'. rewrite !Binds_run. simpl.
      by destruct (dial (db w')), (fault (db w')).
  - apply (HU (λ w', (call Binds u w').1.1 = (call Binds u w).1.1)); [done| |].
    + apply HBinds; [done|done|]. simpl.
      apply (remove_first_filter_other ID). intros d -> . simpl. congruence.
    + intros w' t Hw'. rewrite <- Hw'. rewrite !Binds_run. simpl.
      by destruct (dial (db w')), (fault (db w')).
  - apply (HB (λ w', (Load name w').1 = (Load name w).1)); [done| |].
    + by apply HLoad.
    + intros w' t Hw'. rewrite <- Hw'. rewrite !Load_run. simpl.
      by destruct (dial (db w')), (fault (db w')), (find_id Name name (Volumes (db w'))).
  - apply (HU (λ w', (Load name w').1 = (Load name w).1)); [done| |].
    + by apply HLoad.
    + intros w' t Hw'. rewrite <- Hw'. rewrite !Load_run. simpl.
      by destruct (dial (db w')), (fault (db w')), (find_id Name name (Volumes (db w'))).
Qed.

Lemma bind_calls_keep_the_rest_witness :
  Name v_list_plan ≠ Name v1 ∧
  (call Binds v_list_plan (call (UnbindApp "app1" "/data") v1 busy_world).2).1.1
    = (call Binds v_list_plan busy_world).1.1 ∧
  (Load "v1" (call (UnbindApp "app1" "/data") v1 busy_world).2).1
    = (Load "v1" busy_world).1.
Proof.
  assert (Name v_list_plan ≠ Name v1) as Hname by done.
  split; [exact Hname|].
  destruct (bind_calls_keep_the_rest v1 v_list_plan busy_world "app1" "/data" "rw" "v1"
              Hname) as (_ & HU & _ & HL).
  by split.
Defined.

(** X13: one volume is bound under as many triples as one likes: on a
    storage that answers, two [BindApp] calls whose app or mount point
    differ, both for triples that are free, both succeed, and the storage
    then holds the records it held and the two new ones. *)
Theorem BindApp_two_triples (v : Volume) (w : World) app1 mp1 mode1 app2 mp2 mode2 :
  healthy (db w) → valid_mode mode1 → valid_mode mode2 →
  ¬ bound (bind_id v app1 mp1) (db w) → ¬ bound (bind_id v app2 mp2) (db w) →
  app1 ≠ app2 ∨ mp1 ≠ mp2 →
  ∃ w1 w2,
    call (BindApp app1 mp1 mode1) v w = (Ok tt, v, w1) ∧
    call (BindApp app2 mp2 mode2) v w1 = (Ok tt, v, w2) ∧
    VolumeBinds (db w2)
      ≡ₚ {| ID := bind_id v app1 mp1; Mode := stored_mode mode1 |}
         :: {| ID := bind_id v app2 mp2; Mode := stored_mode mode2 |}
         :: VolumeBinds (db w).
Proof.
  intros Hh Hm1 Hm2 Hfree1 Hfree2 Hdiff.
  destruct (BindApp_healthy v w app1 mp1 mode1 Hm1 Hh) as (w1 & _ & H1).
  apply (has_id_false ID) in Hfree1 as E1. rewrite E1 in H1. destruct H1 as [Hc1 Hd1].
  assert (healthy (db w1)) as Hh1 by (rewrite Hd1; apply Hh).
  destruct (BindApp_healthy v w1 app2 mp2 mode2 Hm2 Hh1) as (w2 & _ & H2).
  assert (has_id ID (bind_id v app2 mp2) (VolumeBinds (db w1)) = false) as E2.
  { apply has_id_false. rewrite Hd1. simpl. rewrite fmap_app, elem_of_app.
    intros [Hin | [Heq | []%elem_of_nil]%elem_of_cons]; [done|].
    simpl in Heq. injection Heq as -> ->. by destruct Hdiff. }
  rewrite E2 in H2. destruct H2 as [Hc2 Hd2].
  exists w1, w2. repeat split; try done.
  rewrite Hd2. simpl. rewrite Hd1. simpl. rewrite <- app_assoc. simpl.
  apply (Permutation_app_comm (VolumeBinds (db w)) [_; _]).
Qed.

Lemma BindApp_two_triples_witness :
  (healthy (db bound_world) ∧
   ¬ bound (bind_id v1 "app1" "/logs") (db bound_world) ∧
   ¬ bound (bind_id v1 "app2" "/data") (db bound_world)) ∧
  ∃ w1 w2,
    call (BindApp "app1" "/logs" EmptyString) v1 bound_world = (Ok tt, v1, w1) ∧
    call (BindApp "app2" "/data" "ro") v1 w1 = (Ok tt, v1, w2) ∧
    VolumeBinds (db w2)
      ≡ₚ {| ID := bind_id v1 "app1" "/logs"; Mode := "rw" |} :: other_bind :: [the_bind].
Proof.
  assert (healthy (db bound_world)) as Hh by (by split).
  assert (¬ bound (bind_id v1 "app1" "/logs") (db bound_world)) as Hf1.
  { unfold bound. simpl. by intros [? | []%elem_of_nil]%elem_of_cons. }
  assert (¬ bound (bind_id v1 "app2" "/data") (db bound_world)) as Hf2.
  { unfold bound. simpl. by intros [? | []%elem_of_nil]%elem_of_cons. }
  split; [done|].
  apply (BindApp_two_triples v1 bound_world "app1" "/logs" EmptyString "app2" "/data" "ro");
    [exact Hh | by left | by right; left | exact Hf1 | exact Hf2 | by left].
Defined.

(** X14: the mode of a bind changes by unbinding and binding again: on a
    storage that answers and indexes its binds, after [BindApp] with one
    mode, [UnbindApp] and [BindApp] with another, all three calls have
    succeeded and the one record under the triple carries the second mode. *)
Theorem rebind_changes_the_mode (v : Volume) (w : World) app mp mode mode' :
  wf_db (db w) → healthy (db w) → ¬ bound (bind_id v app mp) (db w) →
  valid_mode mode → valid_mode mode' →
  ∃ w1 w2 w3,
    call (BindApp app mp mode) v w = (Ok tt, v, w1) ∧
    call (UnbindApp app mp) v w1 = (Ok tt, v, w2) ∧
    call (BindApp app mp mode') v w2 = (Ok tt, v, w3) ∧
    VolumeBinds (db w3)
      = VolumeBinds (db w) ++ [{| ID := bind_id v app mp; Mode := stored_mode mode' |}].
Proof.
  intros Hwf Hh Hfree Hm Hm'.
  destruct (BindApp_healthy v w app mp mode Hm Hh) as (w1 & _ & H1).
  apply (has_id_false ID) in Hfree as E. rewrite E in H1. destruct H1 as [Hc1 Hd1].
  assert (healthy (db w1)) as Hh1 by (rewrite Hd1; apply Hh).
  destruct (UnbindApp_healthy v w1 app mp Hh1) as (w2 & _ & H2).
  assert (has_id ID (bind_id v app mp) (VolumeBinds (db w1)) = true) as E1.
  { apply has_id_true. rewrite Hd1. simpl. rewrite fmap_app. set_solver. }
  rewrite E1 in H2. destruct H2 as [Hc2 Hd2].
  assert (VolumeBinds (db w2) = VolumeBinds (db w)) as Hback.
  { rewrite Hd2, Hd1. simpl. rewrite (remove_first_filter ID).
    - rewrite filter_app, (filter_other_absent ID) by done.
      rewrite filter_cons_False by (intros Hn; by apply Hn). by rewrite app_nil_r.
    - apply unique_ids_snoc; [apply Hwf | done]. }
  assert (healthy (db w2)) as Hh2 by (rewrite Hd2; apply Hh1).
  destruct (BindApp_healthy v w2 app mp mode' Hm' Hh2) as (w3 & _ & H3).
  rewrite Hback, E in H3. destruct H3 as [Hc3 Hd3].
  exists w1, w2, w3. repeat split; try done. by rewrite Hd3.
Qed.

Lemma rebind_changes_the_mode_witness :
  (wf_db (db sample_world) ∧ healthy (db sample_world) ∧
   ¬ bound (bind_id v1 "app1" "/data") (db sample_world)) ∧
  ∃ w1 w2 w3,
    call (BindApp "app1" "/data" "ro") v1 sample_world = (Ok tt, v1, w1) ∧
    call (UnbindApp "app1" "/data") v1 w1 = (Ok tt, v1, w2) ∧
    call (BindApp "app1" "/data" "rw") v1 w2 = (Ok tt, v1, w3) ∧
    VolumeBinds (db w3) = [] ++ [the_bind].
Proof.
  assert (¬ bound (bind_id v1 "app1" "/data") (db sample_world)) as Hfree
    by apply not_elem_of_nil.
  split; [by auto using wf_empty_db, healthy_empty_db|].
  apply (rebind_changes_the_mode v1 sample_world "app1" "/data" "ro" "rw");
    [apply wf_empty_db | apply healthy_empty_db | exact Hfree
    | by right; left | by right; right].
Defined.

(** X15: [BindApp] does not ask whether the volume is stored.  A volume that
    was never saved is bound all the same; the bind then names a volume that
    [Load] does not find and that [ListByApp] does not list. *)
Theorem BindApp_of_unsaved_volume (v : Volume) (w : World) app mp mode :
  healthy (db w) → valid_mode mode → ¬ bound (bind_id v app mp) (db w) →
  Name v ∉ Name <$> Volumes (db w) →
  ∃ w1 vols,
    call (BindApp app mp mode) v w = (Ok tt, v, w1) ∧
    bound (bind_id v app mp) (db w1) ∧
    (Load (Name v) w1).1 = Err ErrVolumeNotFound ∧
    (ListByApp app w1).1 = Ok vols ∧
    Name v ∉ Name <$> vols.
Proof.
  intros Hh Hm Hfree Hunsaved.
  destruct (BindApp_healthy v w app mp mode Hm Hh) as (w1 & _ & H1).
  apply (has_id_false ID) in Hfree as E. rewrite E in H1. destruct H1 as [Hc1 Hd1].
  destruct Hh as [Hdial Hfault].
  exists w1. eexists. split; [done|]. split; [|split; [|split]].
  - unfold bound. rewrite Hd1. simpl. rewrite fmap_app. set_solver.
  - rewrite Load_run. simpl. rewrite Hd1. simpl. rewrite Hdial, Hfault.
    by rewrite (find_id_absent Name).
  - rewrite ListByApp_run. simpl. rewrite Hd1. simpl. rewrite Hdial, Hfault.
    reflexivity.
  - intros (d & Hn & [_ Hd]%list_elem_of_filter)%list_elem_of_fmap.
    apply Hunsaved. rewrite Hn. by apply list_elem_of_fmap_2.
Qed.

Lemma BindApp_of_unsaved_volume_witness :
  (healthy (db sample_world) ∧ ¬ bound (bind_id v1 "app1" "/data") (db sample_world) ∧
   Name v1 ∉ Name <$> Volumes (db sample_world)) ∧
  ∃ w1 vols,
    call (BindApp "app1" "/data" "rw") v1 sample_world = (Ok tt, v1, w1) ∧
    bound (bind_id v1 "app1" "/data") (db w1) ∧
    (Load "v1" w1).1 = Err ErrVolumeNotFound ∧
    (ListByApp "app1" w1).1 = Ok vols ∧
    "v1" ∉ Name <$> vols.
Proof.
  assert (¬ bound (bind_id v1 "app1" "/data") (db sample_world)) as Hfree
    by apply not_elem_of_nil.
  assert (Name v1 ∉ Name <$> Volumes (db sample_world)) as Hunsaved
    by apply not_elem_of_nil.
  split; [by auto using healthy_empty_db|].
  apply (BindApp_of_unsaved_volume v1 sample_world "app1" "/data" "rw");
    [apply healthy_empty_db | by right; right | exact Hfree | exact Hunsaved].
Defined.

(** ** Further properties of [ListByApp] and of histories *)

(** A [Save] that returned no error found the storage answering and left the
    document of the volume in the collection, under the name it was given. *)
Lemma Save_ok_inv (v : Volume) (w : World) v' w1 :
  call Save v w = (Ok tt, v', w1) →
  healthy (db w) ∧ Name v' = Name v ∧
  db w1 = with_Volumes (upsert_id Name (Name v') (document v') (Volumes (db w))) (db w).
Proof.
  intros HS. rewrite Save_run in HS.
  destruct (call Validate v w) as [[[[]|e] v0] w0] eqn:HV; [|discriminate].
  destruct (Validate_ok_receiver v w v0 w0 HV) as (_ & Hdb & opts & ->).
  rewrite Hdb in HS.
  destruct (dial (db w)) eqn:Hdial; [discriminate|].
  destruct (fault (db w)) eqn:Hfault; [discriminate|].
  injection HS as <- <-. by repeat split.
Qed.

(** X16: a volume that was saved and then bound to an app is among the
    volumes [ListByApp] returns for that app, in the form it was stored. *)
Theorem ListByApp_after_Save_and_BindApp (v : Volume) (w : World) v' w1 app mp mode v'' w2 :
  call Save v w = (Ok tt, v', w1) →
  call (BindApp app mp mode) v' w1 = (Ok tt, v'', w2) →
  ∃ vols, (ListByApp app w2).1 = Ok vols ∧ document v' ∈ vols.
Proof.
  intros (Hh & Hname & Hd1)%Save_ok_inv (_ & Hh1 & _ & _ & _ & Hd2)%BindApp_ok_inv.
  destruct Hh1 as [Hdial Hfault].
  rewrite ListByApp_run. simpl. rewrite Hd2. simpl. rewrite Hdial, Hfault.
  eexists. split; [reflexivity|]. apply list_elem_of_filter. split.
  - apply elem_of_remove_dups, list_elem_of_fmap.
    exists {| ID := bind_id v' app mp; Mode := stored_mode mode |}.
    split; [done|]. apply list_elem_of_filter. split; [done|].
    apply elem_of_app. right. apply list_elem_of_here.
  - rewrite Hd1. simpl.
    change (Name v') with (Name (document v')).
    destruct (upsert_id_split Name (document v') (Volumes (db w))) as (c1 & c2 & -> & _).
    apply elem_of_app. right. apply list_elem_of_here.
Qed.

Lemma ListByApp_after_Save_and_BindApp_witness :
  (call Save v1 sample_world
     = (Ok tt, set_Plan_Opts [("size", VString "10Gi")] v1,
        (call Save v1 sample_world).2) ∧
   call (BindApp "app1" "/data" "rw") (set_Plan_Opts [("size", VString "10Gi")] v1)
     (call Save v1 sample_world).2
     = (Ok tt, set_Plan_Opts [("size", VString "10Gi")] v1,
        (call (BindApp "app1" "/data" "rw") (set_Plan_Opts [("size", VString "10Gi")] v1)
           (call Save v1 sample_world).2).2)) ∧
  ∃ vols,
    (ListByApp "app1"
       (call (BindApp "app1" "/data" "rw") (set_Plan_Opts [("size", VString "10Gi")] v1)
          (call Save v1 sample_world).2).2).1 = Ok vols ∧
    document (set_Plan_Opts [("size", VString "10Gi")] v1) ∈ vols.
Proof.
  assert (call Save v1 sample_world
          = (Ok tt, set_Plan_Opts [("size", VString "10Gi")] v1,
             (call Save v1 sample_world).2)) as HS by (by vm_compute).
  assert (call (BindApp "app1" "/data" "rw") (set_Plan_Opts [("size", VString "10Gi")] v1)
            (call Save v1 sample_world).2
          = (Ok tt, set_Plan_Opts [("size", VString "10Gi")] v1,
             (call (BindApp "app1" "/data" "rw")
                (set_Plan_Opts [("size", VString "10Gi")] v1)
                (call Save v1 sample_world).2).2)) as HB by (by vm_compute).
  split; [by split|].
  exact (ListByApp_after_Save_and_BindApp _ _ _ _ _ _ _ _ _ HS HB).
Defined.

(** X17: when the record that [UnbindApp] removes was the only one binding
    the volume to the app, the volume is gone from what [ListByApp] returns
    for that app. *)
Theorem ListByApp_after_last_UnbindApp (v : Volume) (w : World) app mp v' w1 :
  wf_db (db w) →
  call (UnbindApp app mp) v w = (Ok tt, v', w1) →
  (∀ b, b ∈ VolumeBinds (db w) → ID_App (ID b) = app → ID_Volume (ID b) = Name v →
        ID b = bind_id v app mp) →
  ∃ vols, (ListByApp app w1).1 = Ok vols ∧ Name v ∉ Name <$> vols.
Proof.
  intros Hwf HU Honly. rewrite UnbindApp_run in HU. simpl in HU.
  destruct (dial (db w)) eqn:Hdial; [discriminate|].
  destruct (fault (db w)) eqn:Hfault; [discriminate|].
  destruct (has_id ID (bind_id v app mp) (VolumeBinds (db w))); [|discriminate].
  injection HU as <- <-.
  rewrite ListByApp_run. simpl. rewrite Hdial, Hfault.
  eexists. split; [reflexivity|].
  intros (d & Hn & [Hin _]%list_elem_of_filter)%list_elem_of_fmap.
  apply elem_of_remove_dups, list_elem_of_fmap in Hin as (b & Hb & [Happ Hbin]%list_elem_of_filter).
  rewrite (remove_first_filter ID) in Hbin by apply Hwf.
  apply list_elem_of_filter in Hbin as [Hne Hbin].
  apply Hne, Honly; [done|done|congruence].
Qed.

Lemma ListByApp_after_last_UnbindApp_witness :
  (wf_db (db bound_world) ∧
   call (UnbindApp "app1" "/data") v1 bound_world
     = (Ok tt, v1, (call (UnbindApp "app1" "/data") v1 bound_world).2)) ∧
  ∃ vols,
    (ListByApp "app1" (call (UnbindApp "app1" "/data") v1 bound_world).2).1 = Ok vols ∧
    "v1" ∉ Name <$> vols.
Proof.
  assert (wf_db (db bound_world)) as Hwf.
  { split; [apply NoDup_nil_2 | apply NoDup_singleton]. }
  assert (call (UnbindApp "app1" "/data") v1 bound_world
          = (Ok tt, v1, (call (UnbindApp "app1" "/data") v1 bound_world).2)) as HU
    by (by vm_compute).
  split; [by split|].
  apply (ListByApp_after_last_UnbindApp v1 bound_world "app1" "/data" _ _ Hwf HU).
  intros b [-> | []%elem_of_nil]%elem_of_cons _ _. reflexivity.
Defined.

(** X18: [ListByApp] and [Binds] tell the same story: on a storage that
    answers, a stored volume is among the volumes [ListByApp] returns for an
    app exactly when one of the records [Binds] returns for the volume is a
    bind to that app. *)
Theorem ListByApp_agrees_with_Binds (d : Volume) (w : World) app :
  healthy (db w) → d ∈ Volumes (db w) →
  ∃ vols bs,
    (ListByApp app w).1 = Ok vols ∧ (call Binds d w).1.1 = Ok bs ∧
    (d ∈ vols ↔ ∃ b, b ∈ bs ∧ ID_App (ID b) = app).
Proof.
  intros [Hdial Hfault] Hd. rewrite ListByApp_run, Binds_run. simpl.
  rewrite Hdial, Hfault. eexists _, _. split; [reflexivity|]. split; [reflexivity|].
  rewrite list_elem_of_filter, elem_of_remove_dups, list_elem_of_fmap. split.
  - intros [(b & Hn & [Happ Hb]%list_elem_of_filter) _]. exists b. split; [|done].
    by apply list_elem_of_filter.
  - intros (b & [Hv Hb]%list_elem_of_filter & Happ). split; [|done].
    exists b. split; [done|]. by apply list_elem_of_filter.
Qed.

Lemma ListByApp_agrees_with_Binds_witness :
  (healthy (db busy_world) ∧ document v1 ∈ Volumes (db busy_world)) ∧
  ∃ vols bs,
    (ListByApp "app1" busy_world).1 = Ok vols ∧
    (call Binds (document v1) busy_world).1.1 = Ok bs ∧
    (document v1 ∈ vols ↔ ∃ b, b ∈ bs ∧ ID_App (ID b) = "app1").
Proof.
  assert (healthy (db busy_world)) as Hh by (by split).
  assert (document v1 ∈ Volumes (db busy_world)) as Hd by apply list_elem_of_here.
  split; [by split|].
  exact (ListByApp_agrees_with_Binds (document v1) busy_world "app1" Hh Hd).
Defined.

Lemma occurrences_snoc (ev e : Event) (t : list Event) :
  occurrences ev (t ++ [e]) = occurrences ev t + (if decide (e = ev) then 1 else 0).
Proof.
  unfold occurrences. rewrite filter_app, length_app, filter_cons, filter_nil.
  by destruct (decide (e = ev)).
Qed.

Ltac count_events :=
  unfold emit; simpl; rewrite ?occurrences_snoc;
  repeat (destruct (decide _) as [?|?]; try congruence); simpl; lia.

Lemma Validate_opens_nothing (v : Volume) (w : World) :
  occurrences EvConn (trace (call Validate v w).2) = occurrences EvConn (trace w) ∧
  occurrences EvClose (trace (call Validate v w).2) = occurrences EvClose (trace w).
Proof.
  destruct (decide (Name v = EmptyString)) as [Hname|Hname].
  - by rewrite Validate_empty_name.
  - rewrite Validate_run by done. simpl.
    destruct (provision_GetPoolByName (env w) (Pool v)) as [pool|]; [|split; count_events].
    destruct (auth_GetTeam (env w) (TeamOwner v)); [|split; count_events].
    destruct (GetProvisioner pool) as [prov|]; [|split; count_events].
    destruct (config_Get (env w) _); [|split; count_events].
    destruct (ConvertEntries (env w) a0); split; count_events.
Qed.

Ltac close_keeps :=
  split; [done|]; split; [first [done | assumption]|]; split; [done|];
  split; intros ?; first [discriminate | done | count_events].

(** What every call keeps: the health of the storage, the unique ids of the
    collections, and the account of connections opened and closed. *)
Lemma exec_keeps (c : Call) (w : World) :
  dial (db (exec w c)) = dial (db w) ∧
  (wf_db (db w) → wf_db (db (exec w c))) ∧
  (read_only c = true → db (exec w c) = db w) ∧
  (dial (db w) = None →
   occurrences EvConn (trace (exec w c)) + occurrences EvClose (trace w)
   = occurrences EvClose (trace (exec w c)) + occurrences EvConn (trace w)) ∧
  (dial (db w) ≠ None →
   occurrences EvClose (trace (exec w c)) = occurrences EvClose (trace w)).
Proof.
  destruct c as [v|v|v app mp mode|v app mp|v|app|name]; simpl.
  - pose proof (Validate_db v w) as [Hdb _].
    pose proof (Validate_opens_nothing v w) as [Ho Hc].
    rewrite Hdb, Ho, Hc. split; [done|]. split; [done|]. split; [done|].
    split; intros _; lia.
  - pose proof (Save_wf v w) as Hwf. rewrite Save_run in *.
    pose proof (Validate_db v w) as [Hdb _].
    pose proof (Validate_opens_nothing v w) as [Ho Hc].
    destruct (call Validate v w) as [[[[]|e] v'] w1]; simpl in *.
    + rewrite Hdb in *.
      destruct (dial (db w)) eqn:Hdial; simpl in *; [rewrite Hdb; close_keeps|].
      destruct (fault (db w)) eqn:Hfault; simpl in *; [rewrite Hdb|]; close_keeps.
    + rewrite Hdb, Ho, Hc. split; [done|]. split; [done|]. split; [done|].
      split; intros _; lia.
  - pose proof (BindApp_wf v w app mp mode) as Hwf.
    destruct (decide (valid_mode mode)) as [Hmode|Hmode].
    + rewrite BindApp_run in * by done. simpl in *.
      destruct (dial (db w)) eqn:Hdial; simpl in *; [close_keeps|].
      destruct (fault (db w)) eqn:Hfault; simpl in *; [close_keeps|].
      destruct (has_id ID (bind_id v app mp) (VolumeBinds (db w))); simpl in *;
        close_keeps.
    + rewrite BindApp_invalid by done. simpl. split; [done|]. split; [done|].
      split; [done|]. split; intros _; lia.
  - pose proof (UnbindApp_wf v w app mp) as Hwf.
    rewrite UnbindApp_run in *. simpl in *.
    destruct (dial (db w)) eqn:Hdial; simpl in *; [close_keeps|].
    destruct (fault (db w)) eqn:Hfault; simpl in *; [close_keeps|].
    destruct (has_id ID (bind_id v app mp) (VolumeBinds (db w))); simpl in *;
      close_keeps.
  - rewrite Binds_run. simpl.
    destruct (dial (db w)) eqn:Hdial; simpl; [close_keeps|].
    destruct (fault (db w)) eqn:Hfault; simpl; close_keeps.
  - rewrite ListByApp_run. simpl.
    destruct (dial (db w)) eqn:Hdial; simpl; [close_keeps|].
    destruct (fault (db w)) eqn:Hfault; simpl; close_keeps.
  - rewrite Load_run. simpl.
    destruct (dial (db w)) eqn:Hdial; simpl; [close_keeps|].
    destruct (fault (db w)) eqn:Hfault; simpl; [close_keeps|].
    destruct (find_id Name name (Volumes (db w))); simpl; close_keeps.
Qed.

Lemma exec_all_keeps (cs : list Call) (w : World) :
  dial (db (exec_all cs w)) = dial (db w) ∧
  (wf_db (db w) → wf_db (db (exec_all cs w))) ∧
  (forallb read_only cs = true → db (exec_all cs w) = db w) ∧
  (dial (db w) = None →
   occurrences EvConn (trace (exec_all cs w)) + occurrences EvClose (trace w)
   = occurrences EvClose (trace (exec_all cs w)) + occurrences EvConn (trace w)).
Proof.
  unfold exec_all. revert w. induction cs as [|c cs IH]; intros w; simpl.
  - split; [done|]. split; [done|]. split; [done|]. intros _. lia.
  - destruct (exec_keeps c w) as (Hd & Hwf & Hro & Hcount & _).
    destruct (IH (exec w c)) as (Hd' & Hwf' & Hro' & Hcount').
    split; [congruence|]. split; [by auto|]. split.
    + intros [Hc Hcs]%andb_true_iff. rewrite Hro' by done. by apply Hro.
    + intros Hdial. specialize (Hcount Hdial).
      rewrite Hd in Hcount'. specialize (Hcount' Hdial). lia.
Qed.

(** X19: a history of calls that only read, [Validate], [Binds],
    [ListByApp] and [Load] in any number and order, leaves both collections
    exactly as they were, whether the calls succeed or fail. *)
Theorem reading_changes_nothing (cs : list Call) (w : World) :
  forallb read_only cs = true → db (exec_all cs w) = db w.
Proof. apply exec_all_keeps. Qed.

Lemma reading_changes_nothing_witness :
  forallb read_only [CLoad "v1"; CBinds v1; CValidate v_stranger; CListByApp "app1"] = true ∧
  db (exec_all [CLoad "v1"; CBinds v1; CValidate v_stranger; CListByApp "app1"] busy_world)
  = db busy_world.
Proof.
  split; [reflexivity|].
  by apply (reading_changes_nothing
              [CLoad "v1"; CBinds v1; CValidate v_stranger; CListByApp "app1"] busy_world).
Defined.

(** X20: no call leaves a connection open.  When connections are given,
    after any history of calls, failed ones included, the trace counts as
    many closes as connections opened since the history began. *)
Theorem every_connection_is_closed (cs : list Call) (w : World) :
  dial (db w) = None →
  occurrences EvConn (trace (exec_all cs w)) + occurrences EvClose (trace w)
  = occurrences EvClose (trace (exec_all cs w)) + occurrences EvConn (trace w).
Proof. apply exec_all_keeps. Qed.

Lemma every_connection_is_closed_witness :
  dial (db failing_world) = None ∧
  occurrences EvConn
    (trace (exec_all [CSave v1; CBindApp v1 "app1" "/data" "xx"; CLoad "v1"] failing_world))
  + occurrences EvClose (trace failing_world)
  = occurrences EvClose
      (trace (exec_all [CSave v1; CBindApp v1 "app1" "/data" "xx"; CLoad "v1"] failing_world))
    + occurrences EvConn (trace failing_world).
Proof.
  split; [reflexivity|].
  by apply (every_connection_is_closed
              [CSave v1; CBindApp v1 "app1" "/data" "xx"; CLoad "v1"] failing_world).
Defined.

(** X21: the volume collection never holds two documents under one name:
    from a storage that indexes its collections, after any history of calls,
    at most one stored volume has a given name. *)
Theorem volume_names_stay_unique (cs : list Call) (w : World) (name : string) :
  wf_db (db w) →
  (length (filter (λ d, Name d = name) (Volumes (db (exec_all cs w)))) ≤ 1)%nat.
Proof.
  intros Hwf. apply unique_ids_at_most_one.
  by apply (exec_all_keeps cs w).
Qed.

Lemma volume_names_stay_unique_witness :
  wf_db (db sample_world) ∧
  (length (filter (λ d, Name d = "v1")
             (Volumes (db (exec_all [CSave v1; CSave v1; CSave v_list_plan]
                             sample_world)))) ≤ 1)%nat.
Proof.
  split; [apply wf_empty_db|].
  apply (volume_names_stay_unique [CSave v1; CSave v1; CSave v_list_plan]
           sample_world "v1" wf_empty_db).
Defined.

(** ** The key of a plan *)

Lemma no_colon_split (p p' r r' : string) :
  no_colon p = true → no_colon p' = true →
  p +:+ ":" +:+ r = p' +:+ ":" +:+ r' → p = p' ∧ r = r'.
Proof.
  revert p'. induction p as [|c p IH]; intros [|c' p'] Hp Hp' Heq.
  - change (String ":" r = String ":" r') in Heq. by injection Heq as ->.
  - change (String ":" r = String c' (p' +:+ ":" +:+ r')) in Heq.
    injection Heq as <- _. by simpl in Hp'.
  - change (String c (p +:+ ":" +:+ r) = String ":" r') in Heq.
    injection Heq as -> _. by simpl in Hp.
  - change (String c (p +:+ ":" +:+ r) = String c' (p' +:+ ":" +:+ r')) in Heq.
    injection Heq as -> Heq. simpl in Hp, Hp'.
    apply andb_true_iff in Hp as [_ Hp]. apply andb_true_iff in Hp' as [_ Hp'].
    by destruct (IH p' Hp Hp' Heq) as [-> ->].
Qed.

(** X22: for plan names without a colon, the configuration key tells the
    plan and the provisioner apart: two pairs with the same key are the same
    pair.  (With a colon in the plan name keys do collide.) *)
Theorem volumePlanKey_injective (planName planName' provisioner provisioner' : string) :
  no_colon planName = true → no_colon planName' = true →
  volumePlanKey planName provisioner = volumePlanKey planName' provisioner' →
  planName = planName' ∧ provisioner = provisioner'.
Proof.
  intros Hp Hp' Heq. unfold volumePlanKey in Heq.
  apply (no_colon_split planName planName' provisioner provisioner' Hp Hp').
  change ("volume-plans:" +:+ planName +:+ ":" +:+ provisioner)
    with ("volume-plans:" +:+ (planName +:+ ":" +:+ provisioner)) in Heq.
  change ("volume-plans:" +:+ planName' +:+ ":" +:+ provisioner')
    with ("volume-plans:" +:+ (planName' +:+ ":" +:+ provisioner')) in Heq.
  by simplify_eq.
Qed.

Lemma volumePlanKey_injective_witness :
  (no_colon "plan1" = true ∧
   volumePlanKey "plan1" "docker" = volumePlanKey "plan1" "docker") ∧
  "plan1" = "plan1" ∧ "docker" = "docker".
Proof.
  split; [by split|].
  by apply (volumePlanKey_injective "plan1" "plan1" "docker" "docker").
Defined.

(** A plan name with a colon shares its key with another plan. *)
Example volumePlanKey_collision :
  volumePlanKey "fast:kubernetes" "docker" = volumePlanKey "fast" "kubernetes:docker".
Proof. reflexivity. Qed.
